(** * Transpose operators of XNNPACK: setup, loop ordering and dispatch

    A shallow embedding of [src/operators/transpose-nd.c]: the N-dimensional
    transpose operator, and the depth-to-space and space-to-depth operators
    that are built on top of it.

    Conventions.
    - [size_t] and [uint32_t] values are natural numbers of type [N]; every
      [size_t] multiplication of the source is written [a *% b], the product
      reduced modulo [2^64].
      [size_t] is taken to be 64 bits wide.  The source subtracts only where
      the difference cannot be negative ([num_dims - 1] after
      [num_dims != 0], [i - 1] for [i > 0], [normalized_dims - 2] under
      [normalized_dims > 1]), so the subtraction of [N] is exact there.
    - A C array is a [list N]; [a.[i]] reads it, and an index past the end of
      the list (undefined in C) reads [0]; [put] writes it, and does nothing
      past the end.
    - A nullable array argument is an [option (list N)].
    - Calls to [xnn_log_error] and [xnn_delete_operator], which are defined in
      other translation units, are recorded in a trace of effects;
      [xnn_delete_operator] is recorded with the operator it is given, [None]
      for a null pointer. *)

From Stdlib Require Import NArith Arith List Bool Lia Permutation.
Import ListNotations.
Local Open Scope N_scope.

(** ** Machine arithmetic and arrays *)

Definition SIZE_BITS : N := 64.

Definition size_mul (a b : N) : N := (a * b) mod 2 ^ SIZE_BITS.

Notation "a *% b" := (size_mul a b) (at level 40, left associativity).

Definition get (a : list N) (i : N) : N := nth (N.to_nat i) a 0.

Notation "a .[ i ]" := (get a i) (at level 1, left associativity, format "a .[ i ]").

Fixpoint set_nth (a : list N) (i : nat) (v : N) : list N :=
  match a, i with
  | [], _ => []
  | _ :: t, O => v :: t
  | h :: t, S j => h :: set_nth t j v
  end.

Definition put (a : list N) (i : N) (v : N) : list N := set_nth a (N.to_nat i) v.

(** The indices [lo, lo+1, ..., hi-1] of a counting [for] loop. *)
Definition iota (lo hi : N) : list N :=
  map N.of_nat (seq (N.to_nat lo) (N.to_nat hi - N.to_nat lo)).

(** [memcpy(dst, src, sizeof(size_t) * n)], and the loop
    [for (i = 0; i < n; ++i) dst[i] = src[i]]. *)
Definition copy_prefix (n : N) (src dst : list N) : list N :=
  map (get src) (iota 0 n) ++ skipn (N.to_nat n) dst.

(** ** Enumerations *)

Inductive xnn_status :=
| xnn_status_success
| xnn_status_uninitialized
| xnn_status_invalid_parameter
| xnn_status_unsupported_hardware
| xnn_status_out_of_memory.

Inductive xnn_run_state :=
| xnn_run_state_invalid
| xnn_run_state_ready
| xnn_run_state_skip.

Inductive xnn_operator_type :=
| xnn_operator_type_invalid
| xnn_operator_type_transpose_nd_x8
| xnn_operator_type_transpose_nd_x16
| xnn_operator_type_transpose_nd_x32
| xnn_operator_type_depth_to_space_nchw2nhwc_x32
| xnn_operator_type_depth_to_space_nhwc_x8
| xnn_operator_type_depth_to_space_nhwc_x16
| xnn_operator_type_depth_to_space_nhwc_x32
| xnn_operator_type_space_to_depth_nhwc_x8
| xnn_operator_type_space_to_depth_nhwc_x16
| xnn_operator_type_space_to_depth_nhwc_x32.

Inductive xnn_parallelization_type :=
| xnn_parallelization_type_invalid
| xnn_parallelization_type_1d_tile_1d
| xnn_parallelization_type_2d_tile_2d
| xnn_parallelization_type_3d_tile_2d
| xnn_parallelization_type_4d_tile_2d
| xnn_parallelization_type_5d_tile_2d
| xnn_parallelization_type_6d_tile_2d.

(** The task functions that [setup_transpose_nd] stores in [compute]. *)
Inductive compute_task :=
| no_task
| xnn_compute_univector_contiguous
| xnn_compute_transposec_2d | xnn_compute_transposev_2d
| xnn_compute_transposec_3d | xnn_compute_transposev_3d
| xnn_compute_transposec_4d | xnn_compute_transposev_4d
| xnn_compute_transposec_5d | xnn_compute_transposev_5d
| xnn_compute_transposec_6d | xnn_compute_transposev_6d.

Definition xnn_operator_type_eqb (a b : xnn_operator_type) : bool :=
  match a, b with
  | xnn_operator_type_invalid, xnn_operator_type_invalid
  | xnn_operator_type_transpose_nd_x8, xnn_operator_type_transpose_nd_x8
  | xnn_operator_type_transpose_nd_x16, xnn_operator_type_transpose_nd_x16
  | xnn_operator_type_transpose_nd_x32, xnn_operator_type_transpose_nd_x32
  | xnn_operator_type_depth_to_space_nchw2nhwc_x32, xnn_operator_type_depth_to_space_nchw2nhwc_x32
  | xnn_operator_type_depth_to_space_nhwc_x8, xnn_operator_type_depth_to_space_nhwc_x8
  | xnn_operator_type_depth_to_space_nhwc_x16, xnn_operator_type_depth_to_space_nhwc_x16
  | xnn_operator_type_depth_to_space_nhwc_x32, xnn_operator_type_depth_to_space_nhwc_x32
  | xnn_operator_type_space_to_depth_nhwc_x8, xnn_operator_type_space_to_depth_nhwc_x8
  | xnn_operator_type_space_to_depth_nhwc_x16, xnn_operator_type_space_to_depth_nhwc_x16
  | xnn_operator_type_space_to_depth_nhwc_x32, xnn_operator_type_space_to_depth_nhwc_x32 => true
  | _, _ => false
  end.

(** ** The global parameter table [xnn_params] *)

(** One [transpose] entry of [xnn_params]; micro-kernels are function
    pointers, kept as addresses. *)
Record transpose_config := {
  const_size_ukernel : N;
  variable_size_ukernel : N;
  tile_size : N
}.

Record xnn_parameters := {
  init_flags : N;
  x8_transpose : transpose_config;
  x16_transpose : transpose_config;
  x32_transpose : transpose_config;
  xx_transpose : transpose_config;
  xx_copy : N
}.

(** ** The operator object *)

(** The two anonymous unions of [struct transpose_context]. *)
Inductive transpose_ukernel :=
| ukernel_unset
| ukernel_const_size (f : N)
| ukernel_variable_size (f : N).

Inductive transpose_width :=
| width_unset
| width_log2_element_size (w : N)
| width_element_size (w : N).

Record transpose_context := {
  transpose_x : N;
  transpose_y : N;
  transpose_fn : transpose_ukernel;
  transpose_width_of : transpose_width;
  input_stride : list N;
  output_stride : list N
}.

Record univector_contiguous_context := {
  univector_x : N;
  univector_y : N;
  log2_xsize : N;
  log2_ysize : N;
  univector_ukernel : N
}.

(** [context] is a C union of the context structures.  Its two members used
    here are kept as two fields, so that the member through which a store is
    made stays visible; the overlap of their storage is not modelled, the
    structures being declared outside this file.  A field read through the
    member it was last stored through holds what the program's holds; what
    the fields of the other member hold then is a fact of the layout, on
    which the model is silent. *)
Record operator_context := {
  transpose : transpose_context;
  univector_contiguous : univector_contiguous_context
}.

Record compute_parameters := {
  compute_type : xnn_parallelization_type;
  task : compute_task;
  range : list N;
  tile : list N
}.

Record xnn_operator := {
  type : xnn_operator_type;
  flags : N;
  state : xnn_run_state;
  channels : N;
  block_size : N;
  input_pixel_stride : N;
  output_pixel_stride : N;
  compute : compute_parameters;
  context : operator_context
}.

Definition with_state (s : xnn_run_state) (op : xnn_operator) : xnn_operator :=
  {| type := type op; flags := flags op; state := s; channels := channels op;
     block_size := block_size op; input_pixel_stride := input_pixel_stride op;
     output_pixel_stride := output_pixel_stride op;
     compute := compute op; context := context op |}.

Definition with_channels (c : N) (op : xnn_operator) : xnn_operator :=
  {| type := type op; flags := flags op; state := state op; channels := c;
     block_size := block_size op; input_pixel_stride := input_pixel_stride op;
     output_pixel_stride := output_pixel_stride op;
     compute := compute op; context := context op |}.

Definition with_compute (c : compute_parameters) (op : xnn_operator) : xnn_operator :=
  {| type := type op; flags := flags op; state := state op; channels := channels op;
     block_size := block_size op; input_pixel_stride := input_pixel_stride op;
     output_pixel_stride := output_pixel_stride op;
     compute := c; context := context op |}.

Definition with_context (c : operator_context) (op : xnn_operator) : xnn_operator :=
  {| type := type op; flags := flags op; state := state op; channels := channels op;
     block_size := block_size op; input_pixel_stride := input_pixel_stride op;
     output_pixel_stride := output_pixel_stride op;
     compute := compute op; context := c |}.

(** ** Effects and outcomes *)

Inductive log_message :=
| log_num_dims_zero
| log_num_dims_too_large (num_dims : N)
| log_perm_out_of_range (perm_i num_dims : N)
| log_perm_duplicate
| log_input_stride_last (stride : N)
| log_input_stride_order (extent stride : N)
| log_output_stride_last (stride : N)
| log_output_stride_order (extent stride : N)
| log_type_mismatch (expected got : xnn_operator_type)
| log_not_initialized
| log_zero_input (width height : N)
| log_zero_channels (channels : N)
| log_channel_stride (stride channels : N)
| log_blocked_channel_stride (stride block_size channels : N)
| log_block_size (block : N)
| log_out_of_memory.

Inductive effect :=
| xnn_log_error (m : log_message)
| xnn_delete_operator (op : option xnn_operator).

(** What a create function does: the status, the operator handed back
    through the output pointer when there is one, and the trace. *)
Definition created : Type := xnn_status * option xnn_operator * list effect.

(** What a call of a setup function does: it returns a status and leaves the
    operator object in some state, after a trace of effects; or it reaches
    [XNN_UNREACHABLE]. *)
Inductive outcome :=
| Returned (status : xnn_status) (op : xnn_operator) (trace : list effect)
| Unreachable.

(** ** Parts of the library that the file only calls *)

(** Modelled from the spec: the constant [XNN_MAX_TENSOR_DIMS] of
    [xnnpack.h], which is not part of the files studied here.  The rank of a
    transpose problem is 1..6, a hard upper bound. *)
Definition XNN_MAX_TENSOR_DIMS : N := 6.

(** What [xnn_normalize_transpose_permutation] writes through its six output
    pointers. *)
Record normalized_problem := {
  normalized_dims : N;
  normalized_element_size : N;
  normalized_perm : list N;
  normalized_shape : list N;
  normalized_input_stride : list N;
  normalized_output_stride : list N
}.

(** The signature of [xnn_normalize_transpose_permutation]
    ([xnnpack/normalization.h]): [num_dims], [element_size], [perm], [shape],
    [input_stride], [output_stride].  The function is defined in another
    translation unit; the development is parametric in it. *)
Definition normalizer : Type :=
  N -> N -> list N -> list N -> option (list N) -> option (list N) ->
  normalized_problem.

(** ** [reorder_array] *)

(** Reorder the data in [array] using the indices in [loop_order]. *)
Definition reorder_array (num_dims : N) (loop_order array : list N) : list N :=
  let tmp := firstn (N.to_nat num_dims) array in
  map (fun i => tmp.[loop_order.[i]]) (iota 0 num_dims)
  ++ skipn (N.to_nat num_dims) array.

(** ** The steps of [setup_transpose_nd] *)

(** The first loop over [perm]: the first entry that is not below
    [num_dims]. *)
Definition perm_out_of_range (num_dims : N) (perm : list N) : option N :=
  find (fun i => num_dims <=? perm.[i]) (iota 0 num_dims).

(** The nested loops over [perm]: some [perm[i] == perm[j]] with [i < j]. *)
Definition perm_has_duplicate (num_dims : N) (perm : list N) : bool :=
  existsb (fun i => existsb (fun j => perm.[i] =? perm.[j]) (iota (i + 1) num_dims))
          (iota 0 (num_dims - 1)).

(** The checks made on an explicitly supplied stride array.  The source has
    this block twice, for [input_stride] with [extent i = input_shape[i]] and
    for [output_stride] with [extent i = input_shape[perm[i]]].  Each failed
    check calls [xnn_log_error] and execution continues with the next
    statement. *)
Definition check_stride_order (extent : N -> N) (stride : list N)
    (msg : N -> N -> log_message) (acc : N * list effect) (i : N)
    : N * list effect :=
  let '(current_stride, trace) := acc in
  (current_stride *% extent i,
   if (stride.[i - 1] <? stride.[i] *% extent i) || (stride.[i - 1] <? current_stride)
   then trace ++ [xnn_log_error (msg (extent i) stride.[i])]
   else trace).

Definition check_stride (num_dims : N) (extent : N -> N) (stride : option (list N))
    (msg_last : N -> log_message) (msg_order : N -> N -> log_message)
    : list effect :=
  match stride with
  | None => []
  | Some stride =>
      let trace :=
        if negb (stride.[num_dims - 1] =? 1)
        then [xnn_log_error (msg_last stride.[num_dims - 1])]
        else [] in
      (* for (size_t i = num_dims - 1; i > 0; --i) *)
      snd (fold_left (check_stride_order extent stride msg_order)
                     (rev (iota 1 num_dims)) (1, trace))
  end.

(** [degenerate_shape]: some dimension is zero. *)
Definition degenerate_shape (num_dims : N) (input_shape : list N) : bool :=
  existsb (fun i => input_shape.[i] =? 0) (iota 0 num_dims).

(** The scan that moves the entry [normalized_dims - 1] of [loop_order] to
    position [normalized_dims - 2], together with the matching entry of
    [context->output_stride]; [break] leaves the loop at the first hit. *)
Fixpoint loop_order_scan (positions : list N) (normalized_dims : N)
    (loop_order output_stride : list N) : list N * list N :=
  match positions with
  | [] => (loop_order, output_stride)
  | i :: rest =>
      if loop_order.[i] =? normalized_dims - 1 then
        let tmp := loop_order.[i] in
        let loop_order := put loop_order i loop_order.[normalized_dims - 2] in
        let loop_order := put loop_order (normalized_dims - 2) tmp in
        let tmp := output_stride.[i] in
        let output_stride := put output_stride i output_stride.[normalized_dims - 2] in
        let output_stride := put output_stride (normalized_dims - 2) tmp in
        (loop_order, output_stride)
      else loop_order_scan rest normalized_dims loop_order output_stride
  end.

(** [loop_order] is a copy of [normalized_perm]; the scan runs when
    [normalized_dims > 1]. *)
Definition order_loops (normalized_dims : N) (normalized_perm output_stride : list N)
    : list N * list N :=
  let loop_order := map (get normalized_perm) (iota 0 normalized_dims) in
  if 1 <? normalized_dims
  then loop_order_scan (iota 0 (normalized_dims - 2)) normalized_dims
                       loop_order output_stride
  else (loop_order, output_stride).

(** The loop order, the iteration ranges and the two stride arrays as they
    stand after the two calls of [reorder_array]. *)
Record loop_plan := {
  plan_loop_order : list N;
  plan_range : list N;
  plan_input_stride : list N;
  plan_output_stride : list N
}.

Definition plan_loops (nz : normalized_problem) (old_range : list N) : loop_plan :=
  let n := normalized_dims nz in
  let '(loop_order, out_stride) :=
    order_loops n (normalized_perm nz) (normalized_output_stride nz) in
  let range := copy_prefix n (normalized_shape nz) old_range in
  {| plan_loop_order := loop_order;
     plan_range := reorder_array n loop_order range;
     plan_input_stride := reorder_array n loop_order (normalized_input_stride nz);
     plan_output_stride := out_stride |}.

(** [switch (normalized_element_size)]: the micro-kernel, the width it is
    told, the tile size, and the flag [variable_size_ukernel]. *)
Definition select_ukernel (params : xnn_parameters) (normalized_element_size : N)
    : transpose_ukernel * transpose_width * N * bool :=
  match normalized_element_size with
  | 1 => (ukernel_const_size (const_size_ukernel (x8_transpose params)),
          width_log2_element_size 0, tile_size (x8_transpose params), false)
  | 2 => (ukernel_const_size (const_size_ukernel (x16_transpose params)),
          width_log2_element_size 1, tile_size (x16_transpose params), false)
  | 4 => (ukernel_const_size (const_size_ukernel (x32_transpose params)),
          width_log2_element_size 2, tile_size (x32_transpose params), false)
  | _ => (ukernel_variable_size (variable_size_ukernel (xx_transpose params)),
          width_element_size normalized_element_size,
          tile_size (xx_transpose params), true)
  end.

(** [switch (normalized_dims)], cases 2 to 6. *)
Definition select_task (normalized_dims : N) (variable_size_ukernel : bool)
    : option (xnn_parallelization_type * compute_task) :=
  let pick v c := if variable_size_ukernel then v else c in
  match normalized_dims with
  | 2 => Some (xnn_parallelization_type_2d_tile_2d,
               pick xnn_compute_transposev_2d xnn_compute_transposec_2d)
  | 3 => Some (xnn_parallelization_type_3d_tile_2d,
               pick xnn_compute_transposev_3d xnn_compute_transposec_3d)
  | 4 => Some (xnn_parallelization_type_4d_tile_2d,
               pick xnn_compute_transposev_4d xnn_compute_transposec_4d)
  | 5 => Some (xnn_parallelization_type_5d_tile_2d,
               pick xnn_compute_transposev_5d xnn_compute_transposec_5d)
  | 6 => Some (xnn_parallelization_type_6d_tile_2d,
               pick xnn_compute_transposev_6d xnn_compute_transposec_6d)
  | _ => None
  end.

(** ** [setup_transpose_nd] *)

Definition store_transpose_plan (uk : transpose_ukernel) (w : transpose_width)
    (plan : loop_plan) (c : transpose_context) : transpose_context :=
  {| transpose_x := transpose_x c; transpose_y := transpose_y c;
     transpose_fn := uk; transpose_width_of := w;
     input_stride := plan_input_stride plan;
     output_stride := plan_output_stride plan |}.

Definition store_transpose_pointers (input output : N) (c : transpose_context)
    : transpose_context :=
  {| transpose_x := input; transpose_y := output;
     transpose_fn := transpose_fn c; transpose_width_of := transpose_width_of c;
     input_stride := input_stride c; output_stride := output_stride c |}.

Definition store_univector_pointers (input output : N)
    (c : univector_contiguous_context) : univector_contiguous_context :=
  {| univector_x := input; univector_y := output;
     log2_xsize := log2_xsize c; log2_ysize := log2_ysize c;
     univector_ukernel := univector_ukernel c |}.

Definition store_univector_copy (params : xnn_parameters)
    (c : univector_contiguous_context) : univector_contiguous_context :=
  {| univector_x := univector_x c; univector_y := univector_y c;
     log2_xsize := 0; log2_ysize := 0;
     univector_ukernel := xx_copy params |}.

(** Everything after the call of the normalizer: the loop plan, the two
    [switch] statements, the stores of the pointers and of the state.  The
    stores to [compute.tile[0]], [compute.tile[1]] and [compute.range[0]]
    are written with [copy_prefix]. *)
Definition build_plan (params : xnn_parameters) (transpose_op : xnn_operator)
    (input output : N) (nz : normalized_problem) (trace : list effect) : outcome :=
  let plan := plan_loops nz (range (compute transpose_op)) in
  let '(uk, width, tile_sz, variable_size) :=
    select_ukernel params (normalized_element_size nz) in
  let tctx := store_transpose_plan uk width plan (transpose (context transpose_op)) in
  let tiles := copy_prefix 2 [tile_sz; tile_sz] (tile (compute transpose_op)) in
  let uctx := univector_contiguous (context transpose_op) in
  let dispatched :=
    match normalized_dims nz with
    | 1 =>
        Some ({| compute_type := xnn_parallelization_type_1d_tile_1d;
                 task := xnn_compute_univector_contiguous;
                 range := copy_prefix 1 [normalized_element_size nz] (plan_range plan);
                 tile := tiles |},
              store_univector_copy params uctx)
    | d =>
        match select_task d variable_size with
        | Some (ty, fn) =>
            Some ({| compute_type := ty; task := fn;
                     range := plan_range plan; tile := tiles |}, uctx)
        | None => None
        end
    end in
  match dispatched with
  | None => Unreachable
  | Some (comp, uctx) =>
      let ctx :=
        if channels transpose_op =? 1
        then {| transpose := tctx;
                univector_contiguous := store_univector_pointers input output uctx |}
        else {| transpose := store_transpose_pointers input output tctx;
                univector_contiguous := uctx |} in
      Returned xnn_status_success
        (with_state xnn_run_state_ready
           (with_context ctx (with_compute comp transpose_op)))
        trace
  end.

Definition setup_transpose_nd (normalize : normalizer) (params : xnn_parameters)
    (transpose_op : xnn_operator) (input output : N) (num_dims : N)
    (input_shape perm : list N) (input_stride output_stride : option (list N))
    (element_size : N) : outcome :=
  let status := xnn_status_invalid_parameter in
  let transpose_op := with_state xnn_run_state_invalid transpose_op in
  (* error: xnn_delete_operator(transpose_op); return status; *)
  let error m :=
    Returned status transpose_op
      [xnn_log_error m; xnn_delete_operator (Some transpose_op)] in
  if num_dims =? 0 then error log_num_dims_zero
  else if XNN_MAX_TENSOR_DIMS <? num_dims then error (log_num_dims_too_large num_dims)
  else
    match perm_out_of_range num_dims perm with
    | Some i => error (log_perm_out_of_range perm.[i] num_dims)
    | None =>
        if perm_has_duplicate num_dims perm then error log_perm_duplicate
        else
          let trace :=
            check_stride num_dims (fun i => input_shape.[i]) input_stride
              log_input_stride_last log_input_stride_order
            ++ check_stride num_dims (fun i => input_shape.[perm.[i]]) output_stride
              log_output_stride_last log_output_stride_order in
          if degenerate_shape num_dims input_shape then
            Returned xnn_status_success
              (with_state xnn_run_state_skip transpose_op) trace
          else
            let transpose_op := with_channels num_dims transpose_op in
            let nz := normalize num_dims element_size perm input_shape
                                input_stride output_stride in
            build_plan params transpose_op input output nz trace
    end.

(** ** The transpose entry points *)

Section EntryPoints.

(** [XNN_INIT_FLAG_XNNPACK] is a macro of a header that is not part of the
    files studied here; the entry points are parametric in its value. *)
Variable XNN_INIT_FLAG_XNNPACK : N.

Variable normalize : normalizer.
Variable xnn_params : xnn_parameters.

Definition setup_transpose_nd_typed (expected : xnn_operator_type) (element_size : N)
    (transpose_op : xnn_operator) (input output : N) (num_dims : N)
    (shape perm : list N) : outcome :=
  if negb (xnn_operator_type_eqb (type transpose_op) expected) then
    Returned xnn_status_invalid_parameter transpose_op
      [xnn_log_error (log_type_mismatch expected (type transpose_op))]
  else
    setup_transpose_nd normalize xnn_params transpose_op input output
      num_dims shape perm None None element_size.

Definition xnn_setup_transpose_nd_x32 :=
  setup_transpose_nd_typed xnn_operator_type_transpose_nd_x32 4.

Definition xnn_setup_transpose_nd_x16 :=
  setup_transpose_nd_typed xnn_operator_type_transpose_nd_x16 2.

Definition xnn_setup_transpose_nd_x8 :=
  setup_transpose_nd_typed xnn_operator_type_transpose_nd_x8 1.

(** ** Depth to space and space to depth *)

(** The arguments with which a derived operator calls [setup_transpose_nd]. *)
Record transpose_problem := {
  problem_shape : list N;
  problem_perm : list N;
  problem_input_stride : list N;
  problem_output_stride : list N
}.

(** The checks shared by the three derived setup functions, up to the test
    of [batch_size]; [None] means that setup goes on to build its problem. *)
Definition setup_derived_checks (op : xnn_operator) (expected : xnn_operator_type)
    (batch_size input_height input_width : N) : option outcome :=
  if negb (xnn_operator_type_eqb (type op) expected) then
    Some (Returned xnn_status_invalid_parameter op
            [xnn_log_error (log_type_mismatch expected (type op))])
  else
    let op := with_state xnn_run_state_invalid op in
    if N.land (init_flags xnn_params) XNN_INIT_FLAG_XNNPACK =? 0 then
      Some (Returned xnn_status_uninitialized op [xnn_log_error log_not_initialized])
    else if (input_width =? 0) || (input_height =? 0) then
      Some (Returned xnn_status_invalid_parameter op
              [xnn_log_error (log_zero_input input_width input_height)])
    else if batch_size =? 0 then
      Some (Returned xnn_status_success (with_state xnn_run_state_skip op) [])
    else None.

Definition setup_derived (op : xnn_operator) (expected : xnn_operator_type)
    (batch_size input_height input_width : N) (input output : N)
    (num_dims : N) (problem : transpose_problem) (element_size : N) : outcome :=
  match setup_derived_checks op expected batch_size input_height input_width with
  | Some result => result
  | None =>
      setup_transpose_nd normalize xnn_params
        (with_state xnn_run_state_invalid op) input output num_dims
        (problem_shape problem) (problem_perm problem)
        (Some (problem_input_stride problem))
        (Some (problem_output_stride problem)) element_size
  end.

Definition depth_to_space_nchw2nhwc_problem (depth_to_space_op : xnn_operator)
    (batch_size input_height input_width : N) : transpose_problem :=
  let block_size := block_size depth_to_space_op in
  let channels := channels depth_to_space_op in
  let area := input_height *% input_width in
  let elements_per_batch := area *% channels in
  let out_stride := output_pixel_stride depth_to_space_op in
  {| problem_shape :=
       [batch_size; block_size; block_size; channels; input_height; input_width];
     problem_perm := [0; 4; 1; 5; 2; 3];
     problem_input_stride :=
       [input_pixel_stride depth_to_space_op *% area;
        block_size *% elements_per_batch;
        elements_per_batch;
        area;
        input_width;
        1];
     problem_output_stride :=
       [input_height *% block_size *% input_width *% block_size *% out_stride;
        block_size *% input_width *% block_size *% out_stride;
        input_width *% block_size *% out_stride;
        block_size *% out_stride;
        out_stride;
        1] |}.

Definition xnn_setup_depth_to_space_nchw2nhwc_x32 (depth_to_space_op : xnn_operator)
    (batch_size input_height input_width : N) (input output : N) : outcome :=
  setup_derived depth_to_space_op xnn_operator_type_depth_to_space_nchw2nhwc_x32
    batch_size input_height input_width input output 6
    (depth_to_space_nchw2nhwc_problem depth_to_space_op
       batch_size input_height input_width)
    4.

Definition depth_to_space_nhwc_problem (depth_to_space_op : xnn_operator)
    (batch_size input_height input_width : N) : transpose_problem :=
  let block_size := block_size depth_to_space_op in
  let channels := channels depth_to_space_op in
  let input_pixel_stride := input_pixel_stride depth_to_space_op in
  let output_pixel_stride := output_pixel_stride depth_to_space_op in
  let block_output_pixel_stride := block_size *% output_pixel_stride in
  {| problem_shape :=
       [batch_size *% input_height; input_width; block_size; block_size; channels];
     problem_perm := [0; 2; 1; 3; 4];
     problem_input_stride :=
       [input_width *% input_pixel_stride;
        input_pixel_stride;
        block_size *% channels;
        channels;
        1];
     problem_output_stride :=
       [block_size *% input_width *% block_output_pixel_stride;
        input_width *% block_output_pixel_stride;
        block_output_pixel_stride;
        output_pixel_stride;
        1] |}.

Definition setup_depth_to_space_nhwc (depth_to_space_op : xnn_operator)
    (expected_operator_type : xnn_operator_type)
    (batch_size input_height input_width : N) (input output : N)
    (element_size : N) : outcome :=
  setup_derived depth_to_space_op expected_operator_type
    batch_size input_height input_width input output 5
    (depth_to_space_nhwc_problem depth_to_space_op
       batch_size input_height input_width)
    element_size.

(** [input_height / block_size] is a C division: undefined for a block size
    of zero, where [N.div] gives [0]; an operator made by
    [create_space_to_depth_nhwc] has a block size above one. *)
Definition space_to_depth_nhwc_problem (space_to_depth_op : xnn_operator)
    (batch_size input_height input_width : N) : transpose_problem :=
  let block_size := block_size space_to_depth_op in
  let in_stride := input_pixel_stride space_to_depth_op in
  let out_stride := output_pixel_stride space_to_depth_op in
  {| problem_shape :=
       [batch_size *% (input_height / block_size); block_size;
        input_width / block_size; block_size; channels space_to_depth_op];
     problem_perm := [0; 2; 1; 3; 4];
     problem_input_stride :=
       [block_size *% input_width *% in_stride;
        input_width *% in_stride;
        block_size *% in_stride;
        in_stride;
        1];
     problem_output_stride :=
       [(input_width / block_size) *% out_stride;
        out_stride;
        block_size *% channels space_to_depth_op;
        channels space_to_depth_op;
        1] |}.

Definition setup_space_to_depth_nhwc (space_to_depth_op : xnn_operator)
    (expected_operator_type : xnn_operator_type)
    (batch_size input_height input_width : N) (input output : N)
    (element_size : N) : outcome :=
  setup_derived space_to_depth_op expected_operator_type
    batch_size input_height input_width input output 5
    (space_to_depth_nhwc_problem space_to_depth_op
       batch_size input_height input_width)
    element_size.

Definition xnn_setup_depth_to_space_nhwc_x8 (op : xnn_operator)
    (batch_size input_height input_width input output : N) : outcome :=
  setup_depth_to_space_nhwc op xnn_operator_type_depth_to_space_nhwc_x8
    batch_size input_height input_width input output 1.

Definition xnn_setup_depth_to_space_nhwc_x16 (op : xnn_operator)
    (batch_size input_height input_width input output : N) : outcome :=
  setup_depth_to_space_nhwc op xnn_operator_type_depth_to_space_nhwc_x16
    batch_size input_height input_width input output 2.

Definition xnn_setup_depth_to_space_nhwc_x32 (op : xnn_operator)
    (batch_size input_height input_width input output : N) : outcome :=
  setup_depth_to_space_nhwc op xnn_operator_type_depth_to_space_nhwc_x32
    batch_size input_height input_width input output 4.

Definition xnn_setup_space_to_depth_nhwc_x8 (op : xnn_operator)
    (batch_size input_height input_width input output : N) : outcome :=
  setup_space_to_depth_nhwc op xnn_operator_type_space_to_depth_nhwc_x8
    batch_size input_height input_width input output 1.

Definition xnn_setup_space_to_depth_nhwc_x16 (op : xnn_operator)
    (batch_size input_height input_width input output : N) : outcome :=
  setup_space_to_depth_nhwc op xnn_operator_type_space_to_depth_nhwc_x16
    batch_size input_height input_width input output 2.


(** *** Creation of the NHWC operators *)

(** The descriptor as [xnn_allocate_zero_simd_memory] returns it. *)
Definition zero_operator : xnn_operator :=
  {| type := xnn_operator_type_invalid; flags := 0;
     state := xnn_run_state_invalid; channels := 0; block_size := 0;
     input_pixel_stride := 0; output_pixel_stride := 0;
     compute := {| compute_type := xnn_parallelization_type_invalid;
                   task := no_task;
                   range := [0; 0; 0; 0; 0; 0]; tile := [0; 0] |};
     context :=
       {| transpose :=
            {| transpose_x := 0; transpose_y := 0;
               transpose_fn := ukernel_unset; transpose_width_of := width_unset;
               input_stride := [0; 0; 0; 0; 0; 0];
               output_stride := [0; 0; 0; 0; 0; 0] |};
          univector_contiguous :=
            {| univector_x := 0; univector_y := 0; log2_xsize := 0;
               log2_ysize := 0; univector_ukernel := 0 |} |} |}.

Definition new_operator (operator_type : xnn_operator_type)
    (channels input_channel_stride output_channel_stride block_size flags : N)
    : xnn_operator :=
  {| type := operator_type; flags := flags;
     state := xnn_run_state_invalid; channels := channels;
     block_size := block_size;
     input_pixel_stride := input_channel_stride;
     output_pixel_stride := output_channel_stride;
     compute := compute zero_operator; context := context zero_operator |}.

(** [memory] tells whether [xnn_allocate_zero_simd_memory] finds memory. *)
Definition create_depth_to_space_nhwc (memory : bool)
    (output_channels input_channel_stride output_channel_stride : N)
    (block_size flags : N) (operator_type : xnn_operator_type) : created :=
  (* error: the operator pointer is still NULL *)
  let error status m := (status, None, [xnn_log_error m; xnn_delete_operator None]) in
  if N.land (init_flags xnn_params) XNN_INIT_FLAG_XNNPACK =? 0 then
    error xnn_status_uninitialized log_not_initialized
  else if output_channels =? 0 then
    error xnn_status_invalid_parameter (log_zero_channels output_channels)
  else if output_channel_stride <? output_channels then
    error xnn_status_invalid_parameter
          (log_channel_stride output_channel_stride output_channels)
  else if block_size <=? 1 then
    error xnn_status_invalid_parameter (log_block_size block_size)
  else
    let input_channels := output_channels *% block_size *% block_size in
    if input_channel_stride <? input_channels then
      error xnn_status_invalid_parameter
            (log_blocked_channel_stride input_channel_stride block_size
               input_channels)
    else if negb memory then error xnn_status_out_of_memory log_out_of_memory
    else
      (xnn_status_success,
       Some (new_operator operator_type output_channels input_channel_stride
               output_channel_stride block_size flags),
       []).

Definition create_space_to_depth_nhwc (memory : bool)
    (input_channels input_channel_stride output_channel_stride : N)
    (block_size flags : N) (operator_type : xnn_operator_type) : created :=
  (* error: the operator pointer is still NULL *)
  let error status m := (status, None, [xnn_log_error m; xnn_delete_operator None]) in
  if N.land (init_flags xnn_params) XNN_INIT_FLAG_XNNPACK =? 0 then
    error xnn_status_uninitialized log_not_initialized
  else if input_channels =? 0 then
    error xnn_status_invalid_parameter (log_zero_channels input_channels)
  else if input_channel_stride <? input_channels then
    error xnn_status_invalid_parameter
          (log_channel_stride input_channel_stride input_channels)
  else if block_size <=? 1 then
    error xnn_status_invalid_parameter (log_block_size block_size)
  else
    let output_channels := input_channels *% block_size *% block_size in
    if output_channel_stride <? output_channels then
      (* the message prints [input_channels], not the product *)
      error xnn_status_invalid_parameter
            (log_blocked_channel_stride output_channel_stride block_size
               input_channels)
    else if negb memory then error xnn_status_out_of_memory log_out_of_memory
    else
      (xnn_status_success,
       Some (new_operator operator_type input_channels input_channel_stride
               output_channel_stride block_size flags),
       []).

End EntryPoints.

(** ** What a transpose problem moves *)

(** Modelled from the spec: the compute primitives and [xnn_run_operator]
    are not in the files studied here.  Output dimension [i] sources input
    dimension [perm[i]]; a stride is the number of elements between
    consecutive indices along one axis; a primitive writes exactly the
    addressed output elements from exactly the addressed input elements.
    [indices] lists the index tuples of a box, the last index running
    fastest. *)
Fixpoint indices (extents : list N) : list (list N) :=
  match extents with
  | [] => [[]]
  | n :: rest => flat_map (fun i => map (cons i) (indices rest)) (iota 0 n)
  end.

(** Modelled from the spec: the element offset of an index tuple, the sum of
    index times stride over the axes. *)
Fixpoint offset (index strides : list N) : N :=
  match index, strides with
  | i :: index, s :: strides => i * s + offset index strides
  | _, _ => 0
  end.

Definition gather (a perm : list N) : list N := map (get a) perm.

(** Modelled from the spec: the pairs (input offset, output offset) of the
    elements that a transpose problem moves, one per index tuple of the
    output. *)
Definition moves (p : transpose_problem) : list (N * N) :=
  map (fun index =>
         (offset index (gather (problem_input_stride p) (problem_perm p)),
          offset index (problem_output_stride p)))
      (indices (gather (problem_shape p) (problem_perm p))).

Definition buffer (V : Type) : Type := N -> V.

Definition write {V : Type} (b : buffer V) (o : N) (v : V) : buffer V :=
  fun a => if a =? o then v else b a.

(** Modelled from the spec: running a transpose problem writes, for each
    move, the addressed input element to the addressed output element. *)
Definition run_transpose {V : Type} (p : transpose_problem)
    (input output : buffer V) : buffer V :=
  fold_left (fun out m => write out (snd m) (input (fst m))) (moves p) output.


(** ** A stand-in for the normalizer *)

Fixpoint packed_strides (extents : list N) : list N :=
  match extents with
  | [] => []
  | _ :: rest => fold_right N.mul 1 rest :: packed_strides rest
  end.

(** Modelled from the spec: [xnn_normalize_transpose_permutation] is not in
    the files studied here.  This stand-in implements the two outcomes the
    spec states without reference to the merging scan: omitted strides are
    synthesized as row-major packed strides, from [shape] for the input and
    from [shape[perm[.]]] for the output; and an identity permutation of a
    fully packed buffer collapses to rank 1 on a single combined element of
    size [element_size * prod shape].  It merges nothing else.  The theorems
    hold for every normalizer; this one only serves to run them on concrete
    inputs. *)
Definition normalize_packed : normalizer :=
  fun num_dims element_size perm shape input_stride output_stride =>
    let shape := map (get shape) (iota 0 num_dims) in
    let perm := map (get perm) (iota 0 num_dims) in
    match input_stride, output_stride with
    | None, None =>
        if forallb (fun i => perm.[i] =? i) (iota 0 num_dims) then
          {| normalized_dims := 1;
             normalized_element_size := fold_left size_mul shape element_size;
             normalized_perm := [0];
             normalized_shape := [1];
             normalized_input_stride := [fold_left size_mul shape element_size];
             normalized_output_stride := [fold_left size_mul shape element_size] |}
        else
          {| normalized_dims := num_dims;
             normalized_element_size := element_size;
             normalized_perm := perm;
             normalized_shape := shape;
             normalized_input_stride := packed_strides shape;
             normalized_output_stride := packed_strides (gather shape perm) |}
    | _, _ =>
        {| normalized_dims := num_dims;
           normalized_element_size := element_size;
           normalized_perm := perm;
           normalized_shape := shape;
           normalized_input_stride :=
             match input_stride with
             | Some s => s
             | None => packed_strides shape
             end;
           normalized_output_stride :=
             match output_stride with
             | Some s => s
             | None => packed_strides (gather shape perm)
             end |}
    end.

(** A parameter table for concrete runs: the library initialised, tiles of
    32 elements, micro-kernels at distinct addresses. *)
Definition example_params : xnn_parameters :=
  {| init_flags := 1;
     x8_transpose := {| const_size_ukernel := 101; variable_size_ukernel := 0; tile_size := 32 |};
     x16_transpose := {| const_size_ukernel := 102; variable_size_ukernel := 0; tile_size := 32 |};
     x32_transpose := {| const_size_ukernel := 104; variable_size_ukernel := 0; tile_size := 32 |};
     xx_transpose := {| const_size_ukernel := 0; variable_size_ukernel := 100; tile_size := 32 |};
     xx_copy := 99 |}.

(** ** Well-formed arguments *)

Definition valid_rank (num_dims : N) : Prop :=
  1 <= num_dims <= XNN_MAX_TENSOR_DIMS.

Definition valid_perm (num_dims : N) (perm : list N) : Prop :=
  (forall i, i < num_dims -> perm.[i] < num_dims) /\
  (forall i j, i < j -> j < num_dims -> perm.[i] <> perm.[j]).

(** The messages logged by the two stride blocks of [setup_transpose_nd]. *)
Definition stride_trace (num_dims : N) (input_shape perm : list N)
    (input_stride output_stride : option (list N)) : list effect :=
  check_stride num_dims (fun i => input_shape.[i]) input_stride
    log_input_stride_last log_input_stride_order
  ++ check_stride num_dims (fun i => input_shape.[perm.[i]]) output_stride
    log_output_stride_last log_output_stride_order.

(** [perm] restricted to its first [num_dims] entries lists every value of
    [0 .. num_dims - 1] exactly once. *)
Definition is_permutation (num_dims : N) (perm : list N) : Prop :=
  Permutation (map (get perm) (iota 0 num_dims)) (iota 0 num_dims).

(** ** Reading a dispatch *)

(** The number of loop dimensions an executor strategy iterates over, and how
    many of them, the innermost ones, it tiles. *)
Definition parallelization_rank (t : xnn_parallelization_type) : N :=
  match t with
  | xnn_parallelization_type_invalid => 0
  | xnn_parallelization_type_1d_tile_1d => 1
  | xnn_parallelization_type_2d_tile_2d => 2
  | xnn_parallelization_type_3d_tile_2d => 3
  | xnn_parallelization_type_4d_tile_2d => 4
  | xnn_parallelization_type_5d_tile_2d => 5
  | xnn_parallelization_type_6d_tile_2d => 6
  end.

Definition tiled_dimensions (t : xnn_parallelization_type) : N :=
  match t with
  | xnn_parallelization_type_invalid => 0
  | xnn_parallelization_type_1d_tile_1d => 1
  | _ => 2
  end.

(** The rank a task function is written for; the linear copy is the
    rank-1 task. *)
Definition task_rank (t : compute_task) : N :=
  match t with
  | no_task => 0
  | xnn_compute_univector_contiguous => 1
  | xnn_compute_transposec_2d | xnn_compute_transposev_2d => 2
  | xnn_compute_transposec_3d | xnn_compute_transposev_3d => 3
  | xnn_compute_transposec_4d | xnn_compute_transposev_4d => 4
  | xnn_compute_transposec_5d | xnn_compute_transposev_5d => 5
  | xnn_compute_transposec_6d | xnn_compute_transposev_6d => 6
  end.

Inductive task_kind := kind_none | kind_copy | kind_transpose_const | kind_transpose_variable.

Definition task_kind_of (t : compute_task) : task_kind :=
  match t with
  | no_task => kind_none
  | xnn_compute_univector_contiguous => kind_copy
  | xnn_compute_transposec_2d | xnn_compute_transposec_3d
  | xnn_compute_transposec_4d | xnn_compute_transposec_5d
  | xnn_compute_transposec_6d => kind_transpose_const
  | xnn_compute_transposev_2d | xnn_compute_transposev_3d
  | xnn_compute_transposev_4d | xnn_compute_transposev_5d
  | xnn_compute_transposev_6d => kind_transpose_variable
  end.


(** ** The loop order as the specification words it *)

(** The loop order of the specification: start from the identity ordering
    of the normalized dimensions; among all positions but the last two, look
    for the one whose permutation value is the last index, and swap it
    with the second-to-last slot, in the loop order and in the output
    strides; for a rank of at most 1 do nothing.  [order_loops] is what the
    source does. *)
Definition order_loops_specified (normalized_dims : N)
    (normalized_perm output_stride : list N) : list N * list N :=
  let identity := iota 0 normalized_dims in
  if 1 <? normalized_dims then
    match find (fun i => normalized_perm.[i] =? normalized_dims - 1)
               (iota 0 (normalized_dims - 2)) with
    | Some i =>
        (put (put identity i identity.[normalized_dims - 2])
             (normalized_dims - 2) identity.[i],
         put (put output_stride i output_stride.[normalized_dims - 2])
             (normalized_dims - 2) output_stride.[i])
    | None => (identity, output_stride)
    end
  else (identity, output_stride).

(** ** Dimensions as triples *)

(** The (extent, input stride, output stride) triples of the loop
    positions [0 .. n - 1] of three arrays held in loop order. *)
Definition dimension_triples (n : N) (extents istride ostride : list N)
    : list (N * N * N) :=
  map (fun k => (extents.[k], istride.[k], ostride.[k])) (iota 0 n).

(** The triples of a normalized problem, before any reordering.  Output
    dimension [k] is input dimension [perm[k]]; the shape and the input
    strides are indexed by input dimension, the output strides by output
    dimension. *)
Definition normalized_triples (nz : normalized_problem) : list (N * N * N) :=
  map (fun k =>
         ((normalized_shape nz).[(normalized_perm nz).[k]],
          (normalized_input_stride nz).[(normalized_perm nz).[k]],
          (normalized_output_stride nz).[k]))
      (iota 0 (normalized_dims nz)).

(** The number of elements of an iteration space: the product of the first
    [n] extents. *)
Definition element_count (n : N) (extents : list N) : N :=
  fold_right N.mul 1 (map (get extents) (iota 0 n)).

(** ** Strides that do not overlap *)



(** ** Creation and one-shot running of the transpose operator *)

Definition with_flags_and_type (f : N) (t : xnn_operator_type) (op : xnn_operator)
    : xnn_operator :=
  {| type := t; flags := f; state := state op; channels := channels op;
     block_size := block_size op; input_pixel_stride := input_pixel_stride op;
     output_pixel_stride := output_pixel_stride op;
     compute := compute op; context := context op |}.

(** The effects of the functions of this part: those of setup, and the
    message of [init_transpose_nd] that operations on the data type are not
    supported. *)
Inductive lifecycle_effect :=
| from_setup (e : effect)
| xnn_log_error_datatype (operator_type : xnn_operator_type).

(** What [run_transpose_nd] does: the status it returns, the trace of the
    calls it makes before [xnn_run_operator], and the operator it hands to
    [xnn_run_operator] when it gets that far; or [XNN_UNREACHABLE] inside
    setup. *)
Inductive run_outcome :=
| Ran (status : xnn_status) (trace : list lifecycle_effect)
      (executed : option xnn_operator)
| Run_unreachable.

Section Lifecycle.

(** Macros of a header that is not part of the files studied here. *)
Variable XNN_INIT_FLAG_XNNPACK : N.
Variable XNN_INIT_FLAG_X8 : N.
Variable XNN_INIT_FLAG_X16 : N.
Variable XNN_INIT_FLAG_X32 : N.

Variable normalize : normalizer.
Variable xnn_params : xnn_parameters.

(** [xnn_run_operator] is defined in another translation unit; only the
    status it returns is used here. *)
Variable xnn_run_operator : xnn_operator -> xnn_status.

(** [init_transpose_nd]: the status, the operator as it is left, and the
    trace. *)
Definition init_transpose_nd (flags datatype_init_flags : N)
    (operator_type : xnn_operator_type) (transpose_op : xnn_operator)
    : xnn_status * xnn_operator * list lifecycle_effect :=
  if negb (N.land (init_flags xnn_params) datatype_init_flags =? datatype_init_flags)
  then (xnn_status_unsupported_hardware, transpose_op,
        [xnn_log_error_datatype operator_type])
  else (xnn_status_success, with_flags_and_type flags operator_type transpose_op, []).

(** [create_transpose_nd]; [memory] tells whether
    [xnn_allocate_zero_simd_memory] finds memory. *)
Definition create_transpose_nd (memory : bool) (flags datatype_init_flags : N)
    (operator_type : xnn_operator_type)
    : xnn_status * option xnn_operator * list lifecycle_effect :=
  if N.land (init_flags xnn_params) XNN_INIT_FLAG_XNNPACK =? 0 then
    (* return status; *)
    (xnn_status_uninitialized, None,
     [from_setup (xnn_log_error log_not_initialized)])
  else if negb memory then
    (xnn_status_out_of_memory, None,
     [from_setup (xnn_log_error log_out_of_memory);
      from_setup (xnn_delete_operator None)])
  else
    let transpose_op := zero_operator in
    match init_transpose_nd flags datatype_init_flags operator_type transpose_op with
    | (xnn_status_success, transpose_op, trace) =>
        (xnn_status_success, Some transpose_op, trace)
    | (status, transpose_op, trace) =>
        (status, None, trace ++ [from_setup (xnn_delete_operator (Some transpose_op))])
    end.

Definition xnn_create_transpose_nd_x32 (memory : bool) (flags : N) :=
  create_transpose_nd memory flags XNN_INIT_FLAG_X32 xnn_operator_type_transpose_nd_x32.

Definition xnn_create_transpose_nd_x16 (memory : bool) (flags : N) :=
  create_transpose_nd memory flags XNN_INIT_FLAG_X16 xnn_operator_type_transpose_nd_x16.

Definition xnn_create_transpose_nd_x8 (memory : bool) (flags : N) :=
  create_transpose_nd memory flags XNN_INIT_FLAG_X8 xnn_operator_type_transpose_nd_x8.

(** [run_transpose_nd]: the operator lives on the stack and is cleared with
    [memset]. *)
Definition run_transpose_nd (flags input output num_dims : N)
    (input_shape output_perm : list N) (element_size datatype_init_flags : N)
    (operator_type : xnn_operator_type) : run_outcome :=
  if N.land (init_flags xnn_params) XNN_INIT_FLAG_XNNPACK =? 0 then
    Ran xnn_status_uninitialized
        [from_setup (xnn_log_error log_not_initialized)] None
  else
    let transpose_op := zero_operator in
    match init_transpose_nd flags datatype_init_flags operator_type transpose_op with
    | (xnn_status_success, transpose_op, _) =>
        match setup_transpose_nd normalize xnn_params transpose_op input output
                num_dims input_shape output_perm None None element_size with
        | Returned xnn_status_success transpose_op trace =>
            Ran (xnn_run_operator transpose_op) (map from_setup trace)
                (Some transpose_op)
        | Returned status _ trace => Ran status (map from_setup trace) None
        | Unreachable => Run_unreachable
        end
    | (status, _, trace) => Ran status trace None
    end.

Definition xnn_run_transpose_nd_x32 (input output num_dims : N)
    (input_shape output_perm : list N) (flags : N) : run_outcome :=
  run_transpose_nd flags input output num_dims input_shape output_perm 4
    XNN_INIT_FLAG_X32 xnn_operator_type_transpose_nd_x32.

Definition xnn_run_transpose_nd_x16 (input output num_dims : N)
    (input_shape output_perm : list N) (flags : N) : run_outcome :=
  run_transpose_nd flags input output num_dims input_shape output_perm 2
    XNN_INIT_FLAG_X16 xnn_operator_type_transpose_nd_x16.

Definition xnn_run_transpose_nd_x8 (input output num_dims : N)
    (input_shape output_perm : list N) (flags : N) : run_outcome :=
  run_transpose_nd flags input output num_dims input_shape output_perm 1
    XNN_INIT_FLAG_X8 xnn_operator_type_transpose_nd_x8.

(** [xnn_create_depth_to_space_nchw2nhwc_x32]. *)
Definition xnn_create_depth_to_space_nchw2nhwc_x32 (memory : bool)
    (output_channels input_channel_stride output_channel_stride : N)
    (block_size flags : N) : created :=
  (* error: the operator pointer is still NULL *)
  let error status m := (status, None, [xnn_log_error m; xnn_delete_operator None]) in
  if N.land (init_flags xnn_params) XNN_INIT_FLAG_XNNPACK =? 0 then
    error xnn_status_uninitialized log_not_initialized
  else if output_channels =? 0 then
    error xnn_status_invalid_parameter (log_zero_channels output_channels)
  else if output_channel_stride <? output_channels then
    error xnn_status_invalid_parameter
          (log_channel_stride output_channel_stride output_channels)
  else if block_size <=? 1 then
    error xnn_status_invalid_parameter (log_block_size block_size)
  else
    let input_channels := output_channels *% block_size *% block_size in
    if input_channel_stride <? input_channels then
      error xnn_status_invalid_parameter
            (log_blocked_channel_stride input_channel_stride block_size
               input_channels)
    else if negb memory then error xnn_status_out_of_memory log_out_of_memory
    else
      (xnn_status_success,
       Some (new_operator xnn_operator_type_depth_to_space_nchw2nhwc_x32
               output_channels input_channel_stride output_channel_stride
               block_size flags),
       []).

Definition xnn_create_depth_to_space_nhwc_x8 (memory : bool)
    (output_channels input_channel_stride output_channel_stride block_size flags : N) :=
  create_depth_to_space_nhwc XNN_INIT_FLAG_XNNPACK xnn_params memory
    output_channels input_channel_stride output_channel_stride block_size flags
    xnn_operator_type_depth_to_space_nhwc_x8.

Definition xnn_create_depth_to_space_nhwc_x16 (memory : bool)
    (output_channels input_channel_stride output_channel_stride block_size flags : N) :=
  create_depth_to_space_nhwc XNN_INIT_FLAG_XNNPACK xnn_params memory
    output_channels input_channel_stride output_channel_stride block_size flags
    xnn_operator_type_depth_to_space_nhwc_x16.

Definition xnn_create_depth_to_space_nhwc_x32 (memory : bool)
    (output_channels input_channel_stride output_channel_stride block_size flags : N) :=
  create_depth_to_space_nhwc XNN_INIT_FLAG_XNNPACK xnn_params memory
    output_channels input_channel_stride output_channel_stride block_size flags
    xnn_operator_type_depth_to_space_nhwc_x32.

Definition xnn_create_space_to_depth_nhwc_x8 (memory : bool)
    (input_channels input_channel_stride output_channel_stride block_size flags : N) :=
  create_space_to_depth_nhwc XNN_INIT_FLAG_XNNPACK xnn_params memory
    input_channels input_channel_stride output_channel_stride block_size flags
    xnn_operator_type_space_to_depth_nhwc_x8.

Definition xnn_create_space_to_depth_nhwc_x16 (memory : bool)
    (input_channels input_channel_stride output_channel_stride block_size flags : N) :=
  create_space_to_depth_nhwc XNN_INIT_FLAG_XNNPACK xnn_params memory
    input_channels input_channel_stride output_channel_stride block_size flags
    xnn_operator_type_space_to_depth_nhwc_x16.

Definition xnn_create_space_to_depth_nhwc_x32 (memory : bool)
    (input_channels input_channel_stride output_channel_stride block_size flags : N) :=
  create_space_to_depth_nhwc XNN_INIT_FLAG_XNNPACK xnn_params memory
    input_channels input_channel_stride output_channel_stride block_size flags
    xnn_operator_type_space_to_depth_nhwc_x32.

End Lifecycle.

(** ** Reading an outcome *)

(** A trace that holds messages only: no call of [xnn_delete_operator]. *)
Definition only_logs (trace : list effect) : Prop :=
  forall e, In e trace -> exists m, e = xnn_log_error m.

(** What holds of every outcome of a derived setup function called with
    the expected type [expected] on operator [op]. *)
Definition derived_outcome_ok (flag : N) (params : xnn_parameters)
    (op : xnn_operator) (expected : xnn_operator_type)
    (input_height input_width : N) (result : outcome) : Prop :=
  match result with
  | Returned st op' tr =>
      only_logs tr /\
      (st = xnn_status_success \/ st = xnn_status_invalid_parameter \/
       st = xnn_status_uninitialized) /\
      (st = xnn_status_success ->
       state op' = xnn_run_state_ready \/ state op' = xnn_run_state_skip) /\
      (st = xnn_status_invalid_parameter ->
       type op <> expected \/ input_width = 0 \/ input_height = 0) /\
      (st = xnn_status_uninitialized ->
       type op = expected /\ N.land (init_flags params) flag = 0) /\
      type op' = type op /\ block_size op' = block_size op /\
      input_pixel_stride op' = input_pixel_stride op /\
      output_pixel_stride op' = output_pixel_stride op
  | Unreachable => True
  end.

(** What a create function of a derived operator decides: it succeeds with
    the operator [made] exactly when the library is initialised, the
    parameters are valid and memory is found; the three failures are told
    apart in that order; and a failure hands back no operator, logs one
    message and calls [xnn_delete_operator] on the null pointer. *)
Definition create_decides (initialised valid : Prop) (memory : bool)
    (made : xnn_operator) (result : created) : Prop :=
  (result = (xnn_status_success, Some made, []) <->
   initialised /\ valid /\ memory = true) /\
  (~ initialised -> fst (fst result) = xnn_status_uninitialized) /\
  (initialised -> ~ valid -> fst (fst result) = xnn_status_invalid_parameter) /\
  (initialised -> valid -> memory = false ->
   fst (fst result) = xnn_status_out_of_memory) /\
  (fst (fst result) <> xnn_status_success ->
   snd (fst result) = None /\
   exists m, snd result = [xnn_log_error m; xnn_delete_operator None]).

(** * Properties *)

(** ** Loops and arrays *)

Lemma In_iota (lo hi i : N) : In i (iota lo hi) <-> lo <= i < hi.
Proof.
  unfold iota. rewrite in_map_iff. split.
  - intros [k [<- Hk]]. apply in_seq in Hk. lia.
  - intros H. exists (N.to_nat i). rewrite N2Nat.id. split; [reflexivity|].
    apply in_seq. lia.
Qed.

Lemma length_iota (lo hi : N) : length (iota lo hi) = N.to_nat (hi - lo).
Proof. unfold iota. rewrite length_map, length_seq. lia. Qed.

Lemma NoDup_iota (lo hi : N) : NoDup (iota lo hi).
Proof.
  unfold iota. apply Finite.Injective_map_NoDup.
  - intros a b H. apply Nat2N.inj. exact H.
  - apply seq_NoDup.
Qed.

Lemma perm_out_of_range_None (n : N) (perm : list N) :
  perm_out_of_range n perm = None <-> forall i, i < n -> perm.[i] < n.
Proof.
  unfold perm_out_of_range. split.
  - intros H i Hi.
    pose proof (find_none _ _ H i) as Hn. cbv beta in Hn.
    rewrite In_iota in Hn. specialize (Hn ltac:(lia)).
    apply N.leb_gt in Hn. exact Hn.
  - intros H. destruct (find _ _) as [i|] eqn:E; [|reflexivity].
    apply find_some in E. destruct E as [Hi Hb]. apply In_iota in Hi.
    apply N.leb_le in Hb. specialize (H i ltac:(lia)). lia.
Qed.

Lemma perm_has_duplicate_false (n : N) (perm : list N) :
  perm_has_duplicate n perm = false <->
  forall i j, i < j -> j < n -> perm.[i] <> perm.[j].
Proof.
  unfold perm_has_duplicate. split.
  - intros H i j Hij Hj Heq.
    apply not_true_iff_false in H. apply H.
    apply existsb_exists. exists i. split; [apply In_iota; lia|].
    apply existsb_exists. exists j. split; [apply In_iota; lia|].
    apply N.eqb_eq. exact Heq.
  - intros H. apply not_true_iff_false. intros E.
    apply existsb_exists in E. destruct E as [i [Hi E]].
    apply existsb_exists in E. destruct E as [j [Hj E]].
    apply In_iota in Hi. apply In_iota in Hj. apply N.eqb_eq in E.
    apply (H i j); [lia | lia | exact E].
Qed.

Lemma degenerate_shape_true (n : N) (shape : list N) :
  degenerate_shape n shape = true <-> exists i, i < n /\ shape.[i] = 0.
Proof.
  unfold degenerate_shape. rewrite existsb_exists. split.
  - intros [i [Hi E]]. apply In_iota in Hi. apply N.eqb_eq in E.
    exists i. split; [lia | exact E].
  - intros [i [Hi E]]. exists i. split; [apply In_iota; lia | apply N.eqb_eq; exact E].
Qed.

(** ** The shape of the result of [setup_transpose_nd] *)

Lemma setup_transpose_nd_valid (normalize : normalizer) (params : xnn_parameters)
    (op : xnn_operator) (input output num_dims : N) (shape perm : list N)
    (istride ostride : option (list N)) (element_size : N) :
  valid_rank num_dims -> valid_perm num_dims perm ->
  setup_transpose_nd normalize params op input output num_dims shape perm
    istride ostride element_size =
  if degenerate_shape num_dims shape then
    Returned xnn_status_success (with_state xnn_run_state_skip op)
      (stride_trace num_dims shape perm istride ostride)
  else
    build_plan params
      (with_channels num_dims (with_state xnn_run_state_invalid op))
      input output
      (normalize num_dims element_size perm shape istride ostride)
      (stride_trace num_dims shape perm istride ostride).
Proof.
  intros [Hlo Hhi] [Hrange Hdup]. unfold setup_transpose_nd.
  destruct (N.eqb_spec num_dims 0) as [E|_]; [lia|].
  destruct (N.ltb_spec XNN_MAX_TENSOR_DIMS num_dims) as [E|_]; [lia|].
  apply perm_out_of_range_None in Hrange. rewrite Hrange.
  apply perm_has_duplicate_false in Hdup. rewrite Hdup.
  reflexivity.
Qed.

Lemma setup_transpose_nd_invalid (normalize : normalizer) (params : xnn_parameters)
    (op : xnn_operator) (input output num_dims : N) (shape perm : list N)
    (istride ostride : option (list N)) (element_size : N) :
  ~ (valid_rank num_dims /\ valid_perm num_dims perm) ->
  exists m,
    setup_transpose_nd normalize params op input output num_dims shape perm
      istride ostride element_size =
    Returned xnn_status_invalid_parameter (with_state xnn_run_state_invalid op)
      [xnn_log_error m;
       xnn_delete_operator (Some (with_state xnn_run_state_invalid op))].
Proof.
  intros Hbad. unfold setup_transpose_nd.
  destruct (N.eqb_spec num_dims 0) as [E|Hnz]; [eexists; reflexivity|].
  destruct (N.ltb_spec XNN_MAX_TENSOR_DIMS num_dims) as [E|Hle]; [eexists; reflexivity|].
  destruct (perm_out_of_range num_dims perm) as [k|] eqn:Hrange; [eexists; reflexivity|].
  destruct (perm_has_duplicate num_dims perm) eqn:Hdup; [eexists; reflexivity|].
  exfalso. apply Hbad. split; [unfold valid_rank; lia|]. split.
  - apply perm_out_of_range_None. exact Hrange.
  - apply perm_has_duplicate_false. exact Hdup.
Qed.

Lemma select_task_supported (d : N) (v : bool) :
  2 <= d <= XNN_MAX_TENSOR_DIMS -> exists ty fn, select_task d v = Some (ty, fn).
Proof.
  unfold XNN_MAX_TENSOR_DIMS. intros H.
  assert (E : d = 2 \/ d = 3 \/ d = 4 \/ d = 5 \/ d = 6) by lia.
  destruct E as [-> | [-> | [-> | [-> | ->]]]]; cbn; eauto.
Qed.

(** [build_plan] on a normalized problem of supported rank: what it stores. *)
Lemma build_plan_success (params : xnn_parameters) (op : xnn_operator)
    (input output : N) (nz : normalized_problem) (trace : list effect)
    (uk : transpose_ukernel) (w : transpose_width) (ts : N) (v : bool) :
  valid_rank (normalized_dims nz) ->
  select_ukernel params (normalized_element_size nz) = (uk, w, ts, v) ->
  exists op',
    build_plan params op input output nz trace
    = Returned xnn_status_success op' trace /\
    state op' = xnn_run_state_ready /\
    channels op' = channels op /\
    transpose_fn (transpose (context op')) = uk /\
    transpose_width_of (transpose (context op')) = w /\
    tile (compute op') = copy_prefix 2 [ts; ts] (tile (compute op)) /\
    (normalized_dims nz = 1 ->
       compute_type (compute op') = xnn_parallelization_type_1d_tile_1d /\
       task (compute op') = xnn_compute_univector_contiguous /\
       univector_ukernel (univector_contiguous (context op')) = xx_copy params) /\
    (normalized_dims nz <> 1 ->
       select_task (normalized_dims nz) v
       = Some (compute_type (compute op'), task (compute op'))) /\
    (channels op = 1 ->
       univector_x (univector_contiguous (context op')) = input /\
       univector_y (univector_contiguous (context op')) = output /\
       transpose_x (transpose (context op')) = transpose_x (transpose (context op)) /\
       transpose_y (transpose (context op')) = transpose_y (transpose (context op))) /\
    (channels op <> 1 ->
       transpose_x (transpose (context op')) = input /\
       transpose_y (transpose (context op')) = output /\
       univector_x (univector_contiguous (context op'))
       = univector_x (univector_contiguous (context op)) /\
       univector_y (univector_contiguous (context op'))
       = univector_y (univector_contiguous (context op))).
Proof.
  intros Hd Hsel. unfold build_plan. rewrite Hsel.
  destruct (N.eq_dec (normalized_dims nz) 1) as [E1|E1].
  - rewrite E1. cbv iota beta.
    destruct (N.eqb_spec (channels op) 1) as [Ec|Ec];
      eexists; (split; [reflexivity|]); cbn;
      repeat split; try reflexivity; try congruence; intros; try congruence;
      repeat split; reflexivity.
  - destruct (select_task_supported (normalized_dims nz) v) as [ty [fn Hst]].
    { unfold valid_rank in Hd. lia. }
    destruct (normalized_dims nz) as [|[p|p|]] eqn:Ed; try congruence;
      try discriminate Hst; rewrite Hst;
    destruct (N.eqb_spec (channels op) 1) as [Ec|Ec];
      eexists; (split; [reflexivity|]); cbn;
      repeat split; try reflexivity; try congruence; intros; try congruence;
      repeat split; reflexivity.
Qed.

Lemma valid_perm_is_permutation (n : N) (perm : list N) :
  valid_perm n perm -> is_permutation n perm.
Proof.
  intros [Hrange Hdup]. unfold is_permutation.
  apply NoDup_Permutation_bis.
  - apply NoDup_map_NoDup_ForallPairs; [|apply NoDup_iota].
    intros i j Hi Hj E. apply In_iota in Hi. apply In_iota in Hj.
    destruct (N.lt_trichotomy i j) as [Hlt | [Heq | Hgt]]; [|exact Heq|].
    + exfalso. apply (Hdup i j); [lia | lia | exact E].
    + exfalso. apply (Hdup j i); [lia | lia | symmetry; exact E].
  - rewrite length_map. apply le_n.
  - intros x Hx. apply in_map_iff in Hx. destruct Hx as [i [<- Hi]].
    apply In_iota in Hi. apply In_iota. specialize (Hrange i ltac:(lia)). lia.
Qed.

Lemma is_permutation_valid_perm (n : N) (perm : list N) :
  is_permutation n perm -> valid_perm n perm.
Proof.
  unfold is_permutation. intros HP. split.
  - intros i Hi.
    assert (Hin : In perm.[i] (iota 0 n)).
    { eapply Permutation_in; [exact HP|]. apply in_map. apply In_iota. lia. }
    apply In_iota in Hin. lia.
  - intros i j Hij Hj E.
    assert (Hnd : NoDup (map (get perm) (iota 0 n))).
    { eapply Permutation_NoDup; [symmetry; exact HP | apply NoDup_iota]. }
    unfold iota in Hnd. rewrite map_map in Hnd.
    rewrite N2Nat.inj_0, Nat.sub_0_r in Hnd.
    pose proof (proj1 (NoDup_nth _ 0) Hnd (N.to_nat i) (N.to_nat j)) as Hinj.
    rewrite length_map, length_seq in Hinj.
    specialize (Hinj ltac:(lia) ltac:(lia)).
    assert (Hnth : forall k, k < n ->
              nth (N.to_nat k) (map (fun x => perm.[N.of_nat x]) (seq 0 (N.to_nat n))) 0
              = perm.[k]).
    { intros k Hk.
      rewrite (nth_indep _ 0 (perm.[N.of_nat 0])) by (rewrite length_map, length_seq; lia).
      rewrite (map_nth (fun x => perm.[N.of_nat x])).
      rewrite seq_nth by lia. cbn. rewrite N2Nat.id. reflexivity. }
    rewrite !Hnth in Hinj by lia. specialize (Hinj E). lia.
Qed.

Lemma stride_fold_keeps (extent : N -> N) (stride : list N)
    (msg : N -> N -> log_message) (e : effect) (positions : list N)
    (acc : N * list effect) :
  In e (snd acc) ->
  In e (snd (fold_left (check_stride_order extent stride msg) positions acc)).
Proof.
  revert acc. induction positions as [|i rest IH]; intros [cs tr] H; [exact H|].
  cbn [fold_left]. apply IH. cbn in *.
  destruct (_ || _); cbn; [apply in_or_app; left|]; exact H.
Qed.

Lemma stride_fold_logs (extent : N -> N) (stride : list N)
    (msg : N -> N -> log_message) (positions : list N)
    (acc : N * list effect) (i : N) :
  In i positions ->
  stride.[i - 1] < stride.[i] *% extent i ->
  In (xnn_log_error (msg (extent i) stride.[i]))
     (snd (fold_left (check_stride_order extent stride msg) positions acc)).
Proof.
  revert acc. induction positions as [|j rest IH]; intros [cs tr] Hin Hlt;
    [contradiction|].
  cbn [fold_left]. destruct Hin as [-> | Hin].
  - apply stride_fold_keeps. unfold check_stride_order.
    apply N.ltb_lt in Hlt. rewrite Hlt. cbn. apply in_or_app. right. left.
    reflexivity.
  - apply IH; assumption.
Qed.

Lemma check_stride_logs_last (n : N) (extent : N -> N) (stride : list N)
    (msg_last : N -> log_message) (msg_order : N -> N -> log_message) :
  stride.[n - 1] <> 1 ->
  In (xnn_log_error (msg_last stride.[n - 1]))
     (check_stride n extent (Some stride) msg_last msg_order).
Proof.
  intros H. unfold check_stride. apply stride_fold_keeps. cbn.
  destruct (N.eqb_spec stride.[n - 1] 1) as [E|E]; [contradiction|].
  cbn. left. reflexivity.
Qed.

Lemma check_stride_logs_order (n : N) (extent : N -> N) (stride : list N)
    (msg_last : N -> log_message) (msg_order : N -> N -> log_message) (i : N) :
  0 < i -> i < n -> stride.[i - 1] < stride.[i] *% extent i ->
  In (xnn_log_error (msg_order (extent i) stride.[i]))
     (check_stride n extent (Some stride) msg_last msg_order).
Proof.
  intros H0 Hn Hlt. unfold check_stride. apply stride_fold_logs; [|exact Hlt].
  apply in_rev. rewrite rev_involutive. apply In_iota. lia.
Qed.

(** C1 (the code differs): a violation found by the checks on explicitly
    supplied strides is reported through [xnn_log_error] and nothing more.
    With a valid rank and permutation, no zero extent and a normalized rank
    that is supported, [setup_transpose_nd] returns [xnn_status_success] and
    leaves the operator ready to run whatever the strides are: a last input
    or output stride other than 1, and a stride below the next stride times
    the next extent, each leave a message in the trace and no more. *)
Theorem explicit_stride_violation_accepted (normalize : normalizer)
    (params : xnn_parameters) (op : xnn_operator) (input output num_dims : N)
    (shape perm : list N) (istride ostride : option (list N)) (element_size : N) :
  valid_rank num_dims -> valid_perm num_dims perm ->
  degenerate_shape num_dims shape = false ->
  valid_rank (normalized_dims
                (normalize num_dims element_size perm shape istride ostride)) ->
  exists op',
    setup_transpose_nd normalize params op input output num_dims shape perm
      istride ostride element_size
    = Returned xnn_status_success op'
        (stride_trace num_dims shape perm istride ostride) /\
    state op' = xnn_run_state_ready /\
    (forall s, istride = Some s ->
       (s.[num_dims - 1] <> 1 ->
        In (xnn_log_error (log_input_stride_last s.[num_dims - 1]))
           (stride_trace num_dims shape perm istride ostride)) /\
       (forall i, 0 < i -> i < num_dims -> s.[i - 1] < s.[i] *% shape.[i] ->
        In (xnn_log_error (log_input_stride_order shape.[i] s.[i]))
           (stride_trace num_dims shape perm istride ostride))) /\
    (forall s, ostride = Some s ->
       (s.[num_dims - 1] <> 1 ->
        In (xnn_log_error (log_output_stride_last s.[num_dims - 1]))
           (stride_trace num_dims shape perm istride ostride)) /\
       (forall i, 0 < i -> i < num_dims -> s.[i - 1] < s.[i] *% shape.[perm.[i]] ->
        In (xnn_log_error (log_output_stride_order shape.[perm.[i]] s.[i]))
           (stride_trace num_dims shape perm istride ostride))).
Proof.
  intros Hr Hp Hd Hn.
  rewrite setup_transpose_nd_valid by assumption. rewrite Hd.
  destruct (select_ukernel params
              (normalized_element_size
                 (normalize num_dims element_size perm shape istride ostride)))
    as [[[uk w] ts] v] eqn:Hsel.
  destruct (build_plan_success params
              (with_channels num_dims (with_state xnn_run_state_invalid op))
              input output _ (stride_trace num_dims shape perm istride ostride)
              uk w ts v Hn Hsel) as [op' [Hb [Hst _]]].
  exists op'. split; [exact Hb|]. split; [exact Hst|]. split.
  - intros s ->. unfold stride_trace. split.
    + intros Hs. apply in_or_app. left. apply check_stride_logs_last. exact Hs.
    + intros i H0 Hi Hlt. apply in_or_app. left.
      apply (check_stride_logs_order num_dims (fun i => shape.[i])); assumption.
  - intros s ->. unfold stride_trace. split.
    + intros Hs. apply in_or_app. right. apply check_stride_logs_last. exact Hs.
    + intros i H0 Hi Hlt. apply in_or_app. right.
      apply (check_stride_logs_order num_dims (fun i => shape.[perm.[i]]));
        assumption.
Qed.

Lemma valid_rank_1 : valid_rank 1.
Proof. unfold valid_rank, XNN_MAX_TENSOR_DIMS. lia. Qed.

Lemma valid_perm_checked (n : N) (perm : list N) :
  perm_out_of_range n perm = None -> perm_has_duplicate n perm = false ->
  valid_perm n perm.
Proof.
  intros H1 H2. split.
  - apply perm_out_of_range_None. exact H1.
  - apply perm_has_duplicate_false. exact H2.
Qed.

Lemma explicit_stride_violation_accepted_witness :
  exists op',
    setup_transpose_nd normalize_packed example_params zero_operator 1000 2000
      1 [4] [0] (Some [2]) None 4
    = Returned xnn_status_success op' [xnn_log_error (log_input_stride_last 2)] /\
    state op' = xnn_run_state_ready /\
    In (xnn_log_error (log_input_stride_last 2))
       [xnn_log_error (log_input_stride_last 2)].
Proof.
  destruct (explicit_stride_violation_accepted normalize_packed example_params
              zero_operator 1000 2000 1 [4] [0] (Some [2]) None 4)
    as [op' [Hs [Hst [Hin _]]]].
  - exact valid_rank_1.
  - apply valid_perm_checked; reflexivity.
  - reflexivity.
  - exact valid_rank_1.
  - exists op'. split; [exact Hs|]. split; [exact Hst|].
    apply (proj1 (Hin [2] eq_refl)). vm_compute. discriminate.
Defined.

(** A second run: rank 2 with input strides [(1, 1)], where the outer stride
    is below the inner stride times the inner extent. *)
Example stride_order_violation_accepted :
  exists op',
    setup_transpose_nd normalize_packed example_params zero_operator 1000 2000
      2 [2; 3] [1; 0] (Some [1; 1]) None 4
    = Returned xnn_status_success op' [xnn_log_error (log_input_stride_order 3 1)] /\
    state op' = xnn_run_state_ready.
Proof. eexists. split; reflexivity. Qed.

(** C2 (the code differs): when validation of the rank or of the permutation
    fails, [setup_transpose_nd] marks the operator invalid and then hands it
    to [xnn_delete_operator] before it returns
    [xnn_status_invalid_parameter]. *)
Theorem failed_validation_deletes_operator (normalize : normalizer)
    (params : xnn_parameters) (op : xnn_operator) (input output num_dims : N)
    (shape perm : list N) (istride ostride : option (list N)) (element_size : N) :
  ~ (valid_rank num_dims /\ valid_perm num_dims perm) ->
  exists m,
    setup_transpose_nd normalize params op input output num_dims shape perm
      istride ostride element_size
    = Returned xnn_status_invalid_parameter (with_state xnn_run_state_invalid op)
        [xnn_log_error m;
         xnn_delete_operator (Some (with_state xnn_run_state_invalid op))].
Proof. apply setup_transpose_nd_invalid. Qed.

Lemma failed_validation_deletes_operator_witness :
  exists m,
    setup_transpose_nd normalize_packed example_params zero_operator 1000 2000
      0 [] [] None None 4
    = Returned xnn_status_invalid_parameter
        (with_state xnn_run_state_invalid zero_operator)
        [xnn_log_error m;
         xnn_delete_operator (Some (with_state xnn_run_state_invalid zero_operator))].
Proof.
  apply (failed_validation_deletes_operator normalize_packed example_params
           zero_operator 1000 2000 0 [] [] None None 4).
  unfold valid_rank. lia.
Defined.

(** C6: for a rank of 1 to 6, [setup_transpose_nd] returns success only if
    the first [num_dims] entries of [perm] are a permutation of
    [0 .. num_dims - 1]; an entry that is [>= num_dims], or two equal
    entries, make it return [xnn_status_invalid_parameter] with the state
    of the operator invalid. *)
Theorem perm_bijectivity_enforced (normalize : normalizer)
    (params : xnn_parameters) (op : xnn_operator) (input output num_dims : N)
    (shape perm : list N) (istride ostride : option (list N)) (element_size : N) :
  valid_rank num_dims ->
  (forall op' tr,
      setup_transpose_nd normalize params op input output num_dims shape perm
        istride ostride element_size = Returned xnn_status_success op' tr ->
      is_permutation num_dims perm) /\
  ((exists i, i < num_dims /\ num_dims <= perm.[i]) \/
   (exists i j, i < j /\ j < num_dims /\ perm.[i] = perm.[j]) ->
   exists op' tr,
     setup_transpose_nd normalize params op input output num_dims shape perm
       istride ostride element_size
     = Returned xnn_status_invalid_parameter op' tr /\
     state op' = xnn_run_state_invalid).
Proof.
  intros Hr. split.
  - intros op' tr H. apply valid_perm_is_permutation.
    unfold setup_transpose_nd in H.
    destruct (num_dims =? 0); [discriminate|].
    destruct (XNN_MAX_TENSOR_DIMS <? num_dims); [discriminate|].
    destruct (perm_out_of_range num_dims perm) eqn:Hrange; [discriminate|].
    destruct (perm_has_duplicate num_dims perm) eqn:Hdup; [discriminate|].
    split.
    + apply perm_out_of_range_None. exact Hrange.
    + apply perm_has_duplicate_false. exact Hdup.
  - intros Hbad.
    destruct (setup_transpose_nd_invalid normalize params op input output
                num_dims shape perm istride ostride element_size) as [m Hm].
    + intros [_ [Hrange Hdup]].
      destruct Hbad as [[i [Hi Hp]] | [i [j [Hij [Hj E]]]]].
      * specialize (Hrange i Hi). lia.
      * exact (Hdup i j Hij Hj E).
    + eexists. eexists. split; [exact Hm | reflexivity].
Qed.

Lemma valid_rank_2 : valid_rank 2.
Proof. unfold valid_rank, XNN_MAX_TENSOR_DIMS. lia. Qed.

Lemma perm_bijectivity_enforced_witness :
  (forall op' tr,
      setup_transpose_nd normalize_packed example_params zero_operator 1000 2000
        2 [2; 3] [0; 0] None None 4 = Returned xnn_status_success op' tr ->
      is_permutation 2 [0; 0]) /\
  ((exists i, i < 2 /\ 2 <= [0; 0].[i]) \/
   (exists i j, i < j /\ j < 2 /\ [0; 0].[i] = [0; 0].[j]) ->
   exists op' tr,
     setup_transpose_nd normalize_packed example_params zero_operator 1000 2000
       2 [2; 3] [0; 0] None None 4
     = Returned xnn_status_invalid_parameter op' tr /\
     state op' = xnn_run_state_invalid).
Proof.
  apply (perm_bijectivity_enforced normalize_packed example_params zero_operator
           1000 2000 2 [2; 3] [0; 0] None None 4).
  exact valid_rank_2.
Defined.

Lemma setup_transpose_nd_degenerate (normalize : normalizer)
    (params : xnn_parameters) (op : xnn_operator) (input output num_dims : N)
    (shape perm : list N) (istride ostride : option (list N)) (element_size : N) :
  valid_rank num_dims -> valid_perm num_dims perm ->
  (exists i, i < num_dims /\ shape.[i] = 0) ->
  setup_transpose_nd normalize params op input output num_dims shape perm
    istride ostride element_size
  = Returned xnn_status_success (with_state xnn_run_state_skip op)
      (stride_trace num_dims shape perm istride ostride).
Proof.
  intros Hr Hp Hz. rewrite setup_transpose_nd_valid by assumption.
  apply degenerate_shape_true in Hz. rewrite Hz. reflexivity.
Qed.

(** C7: with a valid rank and permutation and some [shape[i] = 0],
    [setup_transpose_nd] returns success and changes the operator in its
    state only, which becomes [xnn_run_state_skip]: the iteration ranges, the
    tiles, the task and both contexts are as before, and neither the
    normalizer nor the kernel table has any bearing on the result. *)
Theorem zero_extent_skips (normalize : normalizer)
    (params : xnn_parameters) (op : xnn_operator) (input output num_dims : N)
    (shape perm : list N) (istride ostride : option (list N)) (element_size : N) :
  valid_rank num_dims -> valid_perm num_dims perm ->
  (exists i, i < num_dims /\ shape.[i] = 0) ->
  exists op',
    setup_transpose_nd normalize params op input output num_dims shape perm
      istride ostride element_size
    = Returned xnn_status_success op'
        (stride_trace num_dims shape perm istride ostride) /\
    op' = with_state xnn_run_state_skip op /\
    state op' = xnn_run_state_skip /\
    compute op' = compute op /\ context op' = context op /\
    channels op' = channels op /\
    forall (normalize' : normalizer) (params' : xnn_parameters),
      setup_transpose_nd normalize' params' op input output num_dims shape perm
        istride ostride element_size
      = setup_transpose_nd normalize params op input output num_dims shape perm
          istride ostride element_size.
Proof.
  intros Hr Hp Hz. exists (with_state xnn_run_state_skip op).
  repeat split; try reflexivity.
  - apply setup_transpose_nd_degenerate; assumption.
  - intros normalize' params'.
    rewrite !setup_transpose_nd_degenerate by assumption. reflexivity.
Qed.

Lemma zero_extent_skips_witness :
  exists op',
    setup_transpose_nd normalize_packed example_params zero_operator 1000 2000
      2 [3; 0] [1; 0] None None 4
    = Returned xnn_status_success op' [] /\
    op' = with_state xnn_run_state_skip zero_operator /\
    state op' = xnn_run_state_skip /\
    compute op' = compute zero_operator /\ context op' = context zero_operator /\
    channels op' = channels zero_operator /\
    forall (normalize' : normalizer) (params' : xnn_parameters),
      setup_transpose_nd normalize' params' zero_operator 1000 2000
        2 [3; 0] [1; 0] None None 4
      = setup_transpose_nd normalize_packed example_params zero_operator 1000 2000
          2 [3; 0] [1; 0] None None 4.
Proof.
  apply (zero_extent_skips normalize_packed example_params zero_operator
           1000 2000 2 [3; 0] [1; 0] None None 4).
  - exact valid_rank_2.
  - apply valid_perm_checked; reflexivity.
  - exists 1. split; [lia | reflexivity].
Defined.



Lemma select_task_reads (d : N) (v : bool) (ty : xnn_parallelization_type)
    (fn : compute_task) :
  select_task d v = Some (ty, fn) ->
  parallelization_rank ty = d /\ tiled_dimensions ty = 2 /\ task_rank fn = d /\
  task_kind_of fn = if v then kind_transpose_variable else kind_transpose_const.
Proof.
  unfold select_task.
  destruct d as [|[[[p|p|]|[p|p|]|]|[[p|p|]|[p|p|]|]|]]; try discriminate;
    destruct v; intros [= <- <-]; repeat split; reflexivity.
Qed.



Lemma valid_rank_3 : valid_rank 3.
Proof. unfold valid_rank, XNN_MAX_TENSOR_DIMS. lia. Qed.


(** X16: after a setup that builds a plan, the input and output pointers
    read back through the member of the context that the code stores them
    through, and that member is chosen by the rank [num_dims] given by the
    caller: the contiguous-copy member when it is 1, the transpose member
    otherwise.  The task is chosen by the normalized rank, so a problem of
    higher rank that normalizes to rank 1 gets the contiguous-copy task and
    its pointers are stored through the transpose member.  Nothing is said
    of the member that is not stored through: the two are members of one C
    union, and what a store through one shows through the other is a
    matter of the layout of structures declared outside this file. *)
Theorem pointers_read_back (normalize : normalizer)
    (params : xnn_parameters) (op : xnn_operator) (input output num_dims : N)
    (shape perm : list N) (istride ostride : option (list N)) (element_size : N) :
  let nz := normalize num_dims element_size perm shape istride ostride in
  valid_rank num_dims -> valid_perm num_dims perm ->
  degenerate_shape num_dims shape = false ->
  valid_rank (normalized_dims nz) ->
  exists op',
    setup_transpose_nd normalize params op input output num_dims shape perm
      istride ostride element_size
    = Returned xnn_status_success op'
        (stride_trace num_dims shape perm istride ostride) /\
    (num_dims = 1 ->
       univector_x (univector_contiguous (context op')) = input /\
       univector_y (univector_contiguous (context op')) = output) /\
    (num_dims <> 1 ->
       transpose_x (transpose (context op')) = input /\
       transpose_y (transpose (context op')) = output) /\
    (normalized_dims nz = 1 ->
       task (compute op') = xnn_compute_univector_contiguous).
Proof.
  intros nz Hr Hp Hz Hd.
  rewrite setup_transpose_nd_valid by assumption. rewrite Hz. fold nz.
  destruct (select_ukernel params (normalized_element_size nz))
    as [[[uk w] ts] v] eqn:Hsel.
  destruct (build_plan_success params
              (with_channels num_dims (with_state xnn_run_state_invalid op))
              input output nz (stride_trace num_dims shape perm istride ostride)
              uk w ts v Hd Hsel)
    as [op' [Hb [_ [_ [_ [_ [_ [H1 [_ [Hc1 Hcn]]]]]]]]]].
  cbn [channels with_channels with_state context] in Hc1, Hcn.
  exists op'. split; [exact Hb|].
  split; [|split].
  - intros Hn. destruct (Hc1 Hn) as [A [B _]]. split; assumption.
  - intros Hn. destruct (Hcn Hn) as [A [B _]]. split; assumption.
  - intros Hd1. destruct (H1 Hd1) as [_ [Ht _]]. exact Ht.
Qed.

Lemma pointers_read_back_witness :
  exists op',
    setup_transpose_nd normalize_packed example_params zero_operator 1000 2000
      3 [2; 3; 4] [0; 1; 2] None None 4
    = Returned xnn_status_success op' [] /\
    task (compute op') = xnn_compute_univector_contiguous /\
    transpose_x (transpose (context op')) = 1000 /\
    transpose_y (transpose (context op')) = 2000.
Proof.
  destruct (pointers_read_back normalize_packed example_params
              zero_operator 1000 2000 3 [2; 3; 4] [0; 1; 2] None None 4)
    as [op' [Hs [_ [Ht Hcopy]]]].
  - exact valid_rank_3.
  - apply valid_perm_checked; reflexivity.
  - reflexivity.
  - exact valid_rank_1.
  - exists op'. split; [exact Hs|].
    destruct Ht as [Hx Hy]; [discriminate|].
    split; [apply Hcopy; reflexivity|]. split; assumption.
Defined.

(** ** Zero sizes at the derived setup functions *)

Lemma xnn_operator_type_eqb_refl (t : xnn_operator_type) :
  xnn_operator_type_eqb t t = true.
Proof. destruct t; reflexivity. Qed.

Lemma setup_derived_zero_input (flag : N) (normalize : normalizer)
    (params : xnn_parameters) (op : xnn_operator)
    (batch_size input_height input_width input output num_dims : N)
    (problem : transpose_problem) (element_size : N) :
  N.land (init_flags params) flag <> 0 ->
  input_width = 0 \/ input_height = 0 ->
  setup_derived flag normalize params op (type op) batch_size input_height
    input_width input output num_dims problem element_size
  = Returned xnn_status_invalid_parameter (with_state xnn_run_state_invalid op)
      [xnn_log_error (log_zero_input input_width input_height)].
Proof.
  intros Hinit Hz. unfold setup_derived, setup_derived_checks.
  rewrite xnn_operator_type_eqb_refl. cbn [negb].
  destruct (N.eqb_spec (N.land (init_flags params) flag) 0) as [E|_]; [contradiction|].
  destruct (N.eqb_spec input_width 0) as [Ew|Ew];
    destruct (N.eqb_spec input_height 0) as [Eh|Eh]; try reflexivity.
  destruct Hz; contradiction.
Qed.

Lemma setup_derived_zero_batch (flag : N) (normalize : normalizer)
    (params : xnn_parameters) (op : xnn_operator)
    (input_height input_width input output num_dims : N)
    (problem : transpose_problem) (element_size : N) :
  N.land (init_flags params) flag <> 0 ->
  input_width <> 0 -> input_height <> 0 ->
  setup_derived flag normalize params op (type op) 0 input_height
    input_width input output num_dims problem element_size
  = Returned xnn_status_success (with_state xnn_run_state_skip op) [].
Proof.
  intros Hinit Hw Hh. unfold setup_derived, setup_derived_checks.
  rewrite xnn_operator_type_eqb_refl. cbn [negb].
  destruct (N.eqb_spec (N.land (init_flags params) flag) 0) as [E|_]; [contradiction|].
  destruct (N.eqb_spec input_width 0) as [Ew|_]; [contradiction|].
  destruct (N.eqb_spec input_height 0) as [Eh|_]; [contradiction|].
  reflexivity.
Qed.

(** C3, as the claim has it, fails: a depth-to-space operator set up with an
    input height of zero is rejected with [xnn_status_invalid_parameter] and
    is left invalid, not skipped. *)
Lemma zero_height_is_rejected :
  xnn_setup_depth_to_space_nhwc_x32 1 normalize_packed example_params
    (new_operator xnn_operator_type_depth_to_space_nhwc_x32 1 4 1 2 0)
    1 0 4 1000 2000
  = Returned xnn_status_invalid_parameter
      (with_state xnn_run_state_invalid
         (new_operator xnn_operator_type_depth_to_space_nhwc_x32 1 4 1 2 0))
      [xnn_log_error (log_zero_input 4 0)]
  /\ ~ (exists op' tr,
          xnn_setup_depth_to_space_nhwc_x32 1 normalize_packed example_params
            (new_operator xnn_operator_type_depth_to_space_nhwc_x32 1 4 1 2 0)
            1 0 4 1000 2000
          = Returned xnn_status_success op' tr /\
          state op' = xnn_run_state_skip).
Proof.
  split; [reflexivity|]. intros [op' [tr [H _]]]. discriminate H.
Qed.

(** C3, amended: at the transpose setup a zero extent, with a valid rank and
    permutation, is a no-op (success, state skip); at the three derived
    setup functions, on an operator of the expected type with the library
    initialised, a zero input width or height is rejected with
    [xnn_status_invalid_parameter] and the state is left invalid, and, with
    a width and a height that are not zero, a zero batch size is a no-op
    (success, state skip). *)
Theorem zero_sizes_at_setup (flag : N) (normalize : normalizer)
    (params : xnn_parameters) (op : xnn_operator)
    (batch_size input_height input_width input output element_size : N) :
  N.land (init_flags params) flag <> 0 ->
  (forall num_dims shape perm istride ostride,
     valid_rank num_dims -> valid_perm num_dims perm ->
     (exists i, i < num_dims /\ shape.[i] = 0) ->
     setup_transpose_nd normalize params op input output num_dims shape perm
       istride ostride element_size
     = Returned xnn_status_success (with_state xnn_run_state_skip op)
         (stride_trace num_dims shape perm istride ostride)) /\
  (input_width = 0 \/ input_height = 0 ->
     let rejected :=
       Returned xnn_status_invalid_parameter (with_state xnn_run_state_invalid op)
         [xnn_log_error (log_zero_input input_width input_height)] in
     setup_depth_to_space_nhwc flag normalize params op (type op)
       batch_size input_height input_width input output element_size = rejected /\
     setup_space_to_depth_nhwc flag normalize params op (type op)
       batch_size input_height input_width input output element_size = rejected /\
     (type op = xnn_operator_type_depth_to_space_nchw2nhwc_x32 ->
      xnn_setup_depth_to_space_nchw2nhwc_x32 flag normalize params op
        batch_size input_height input_width input output = rejected)) /\
  (input_width <> 0 -> input_height <> 0 -> batch_size = 0 ->
     let skipped :=
       Returned xnn_status_success (with_state xnn_run_state_skip op) [] in
     setup_depth_to_space_nhwc flag normalize params op (type op)
       batch_size input_height input_width input output element_size = skipped /\
     setup_space_to_depth_nhwc flag normalize params op (type op)
       batch_size input_height input_width input output element_size = skipped /\
     (type op = xnn_operator_type_depth_to_space_nchw2nhwc_x32 ->
      xnn_setup_depth_to_space_nchw2nhwc_x32 flag normalize params op
        batch_size input_height input_width input output = skipped)).
Proof.
  intros Hinit. split; [|split].
  - intros. apply setup_transpose_nd_degenerate; assumption.
  - intros Hz rejected. subst rejected.
    unfold setup_depth_to_space_nhwc, setup_space_to_depth_nhwc,
      xnn_setup_depth_to_space_nchw2nhwc_x32.
    split; [|split].
    + apply setup_derived_zero_input; assumption.
    + apply setup_derived_zero_input; assumption.
    + intros <-. apply setup_derived_zero_input; assumption.
  - intros Hw Hh -> skipped. subst skipped.
    unfold setup_depth_to_space_nhwc, setup_space_to_depth_nhwc,
      xnn_setup_depth_to_space_nchw2nhwc_x32.
    split; [|split].
    + apply setup_derived_zero_batch; assumption.
    + apply setup_derived_zero_batch; assumption.
    + intros <-. apply setup_derived_zero_batch; assumption.
Qed.

Lemma zero_sizes_at_setup_witness :
  setup_space_to_depth_nhwc 1 normalize_packed example_params
    (new_operator xnn_operator_type_space_to_depth_nhwc_x32 1 1 4 2 0)
    xnn_operator_type_space_to_depth_nhwc_x32 1 4 0 1000 2000 4
  = Returned xnn_status_invalid_parameter
      (with_state xnn_run_state_invalid
         (new_operator xnn_operator_type_space_to_depth_nhwc_x32 1 1 4 2 0))
      [xnn_log_error (log_zero_input 0 4)].
Proof.
  destruct (zero_sizes_at_setup 1 normalize_packed example_params
              (new_operator xnn_operator_type_space_to_depth_nhwc_x32 1 1 4 2 0)
              1 4 0 1000 2000 4) as [_ [Hrej _]].
  - vm_compute. discriminate.
  - destruct Hrej as [_ [Hs _]]; [left; reflexivity|]. exact Hs.
Defined.

(** ** Reads and writes of arrays *)

Lemma length_set_nth (a : list N) (i : nat) (v : N) :
  length (set_nth a i v) = length a.
Proof.
  revert i. induction a as [|h t IH]; intros [|i]; cbn; try reflexivity.
  rewrite IH. reflexivity.
Qed.

Lemma nth_set_nth_eq (a : list N) (i : nat) (v d : N) :
  (i < length a)%nat -> nth i (set_nth a i v) d = v.
Proof.
  revert i. induction a as [|h t IH]; intros [|i] H; cbn in *; try lia.
  apply IH. lia.
Qed.

Lemma nth_set_nth_neq (a : list N) (i k : nat) (v d : N) :
  i <> k -> nth k (set_nth a i v) d = nth k a d.
Proof.
  revert i k. induction a as [|h t IH]; intros [|i] [|k] H; cbn; try reflexivity.
  - contradiction.
  - apply IH. lia.
Qed.

Lemma length_put (a : list N) (i v : N) : length (put a i v) = length a.
Proof. apply length_set_nth. Qed.

Lemma get_put_eq (a : list N) (i v : N) :
  i < N.of_nat (length a) -> (put a i v).[i] = v.
Proof. intros H. apply nth_set_nth_eq. lia. Qed.

Lemma get_put_neq (a : list N) (i k v : N) :
  i <> k -> (put a i v).[k] = a.[k].
Proof. intros H. apply nth_set_nth_neq. lia. Qed.

Lemma get_iota (n k : N) : k < n -> (iota 0 n).[k] = k.
Proof.
  intros H. unfold get, iota.
  change (nth (N.to_nat k)
            (map N.of_nat (seq (N.to_nat 0) (N.to_nat n - N.to_nat 0)))
            (N.of_nat 0) = k).
  rewrite map_nth. rewrite seq_nth by lia. lia.
Qed.

Lemma get_map_iota (f : N -> N) (n k : N) :
  k < n -> (map f (iota 0 n)).[k] = f k.
Proof.
  intros H. unfold get.
  rewrite (nth_indep _ 0 (f 0)) by (rewrite length_map, length_iota; lia).
  rewrite map_nth. f_equal. apply get_iota. exact H.
Qed.

(** ** The loop order *)

(** Exchange of the entries [i] and [j] of an array, as the source writes
    it with a temporary. *)
Lemma exchange_reads (a : list N) (i j : N) :
  i < N.of_nat (length a) -> j < N.of_nat (length a) ->
  let a' := put (put a i a.[j]) j a.[i] in
  a'.[i] = a.[j] /\ a'.[j] = a.[i] /\
  (forall k, k <> i -> k <> j -> a'.[k] = a.[k]) /\
  length a' = length a.
Proof.
  intros Hi Hj a'. subst a'. repeat split.
  - destruct (N.eq_dec i j) as [->|Hne].
    + rewrite get_put_eq by (rewrite length_put; exact Hj). reflexivity.
    + rewrite get_put_neq by congruence. apply get_put_eq. exact Hi.
  - apply get_put_eq. rewrite length_put. exact Hj.
  - intros k Hki Hkj. rewrite !get_put_neq by congruence. reflexivity.
  - rewrite !length_put. reflexivity.
Qed.

Lemma loop_order_scan_miss (positions : list N) (n : N) (lo os : list N) :
  (forall i, In i positions -> lo.[i] <> n - 1) ->
  loop_order_scan positions n lo os = (lo, os).
Proof.
  induction positions as [|i rest IH]; intros H; [reflexivity|].
  cbn [loop_order_scan].
  destruct (N.eqb_spec lo.[i] (n - 1)) as [E|_].
  - exfalso. apply (H i); [left; reflexivity | exact E].
  - apply IH. intros j Hj. apply H. right. exact Hj.
Qed.

Lemma loop_order_scan_hit (before after : list N) (i n : N) (lo os : list N) :
  (forall j, In j before -> lo.[j] <> n - 1) ->
  lo.[i] = n - 1 ->
  loop_order_scan (before ++ i :: after) n lo os
  = (put (put lo i lo.[n - 2]) (n - 2) lo.[i],
     put (put os i os.[n - 2]) (n - 2) os.[i]).
Proof.
  induction before as [|j rest IH]; intros H E.
  - cbn [app loop_order_scan]. rewrite E, N.eqb_refl. reflexivity.
  - cbn [app loop_order_scan].
    destruct (N.eqb_spec lo.[j] (n - 1)) as [Ej|_].
    + exfalso. apply (H j); [left; reflexivity | exact Ej].
    + apply IH; [|exact E]. intros k Hk. apply H. right. exact Hk.
Qed.

Lemma iota_split (lo i hi : N) :
  lo <= i -> i < hi -> iota lo hi = iota lo i ++ i :: iota (i + 1) hi.
Proof.
  intros H1 H2. unfold iota.
  replace (N.to_nat hi - N.to_nat lo)%nat
    with ((N.to_nat i - N.to_nat lo) + S (N.to_nat hi - N.to_nat (i + 1)))%nat by lia.
  rewrite seq_app, map_app. f_equal. cbn [seq map].
  replace (N.to_nat lo + (N.to_nat i - N.to_nat lo))%nat with (N.to_nat i) by lia.
  rewrite N2Nat.id. do 3 f_equal. lia.
Qed.

Lemma order_loops_unchanged (n : N) (perm os : list N) :
  n <= 1 \/ (forall i, i + 2 < n -> perm.[i] <> n - 1) ->
  order_loops n perm os = (map (get perm) (iota 0 n), os).
Proof.
  intros H. unfold order_loops.
  destruct (N.ltb_spec 1 n) as [Hn|Hn]; [|reflexivity].
  destruct H as [H|H]; [lia|].
  apply loop_order_scan_miss. intros i Hi. apply In_iota in Hi.
  rewrite get_map_iota by lia. apply H. lia.
Qed.

Lemma order_loops_swapped (n i : N) (perm os : list N) :
  i + 2 < n -> perm.[i] = n - 1 -> (forall j, j < i -> perm.[j] <> n - 1) ->
  let lo := map (get perm) (iota 0 n) in
  order_loops n perm os
  = (put (put lo i lo.[n - 2]) (n - 2) lo.[i],
     put (put os i os.[n - 2]) (n - 2) os.[i]).
Proof.
  intros Hi E Hfirst lo. unfold order_loops. fold lo.
  destruct (N.ltb_spec 1 n) as [Hn|Hn]; [|lia].
  rewrite (iota_split 0 i (n - 2)) by lia.
  apply loop_order_scan_hit.
  - intros j Hj. apply In_iota in Hj. unfold lo.
    rewrite get_map_iota by lia. apply Hfirst. lia.
  - unfold lo. rewrite get_map_iota by lia. exact E.
Qed.

(** C4, as the claim has it, fails: for the normalized permutation [(1, 0)]
    of rank 2 the loop order of the source is [(1, 0)], the permutation
    itself, where an order that starts from the identity is [(0, 1)]; for
    [(2, 0, 1)] the source gives [(0, 2, 1)], the identity start
    [(1, 0, 2)]. *)
Lemma loop_order_is_not_identity_based :
  fst (order_loops 2 [1; 0] [2; 1]) = [1; 0] /\
  fst (order_loops_specified 2 [1; 0] [2; 1]) = [0; 1] /\
  fst (order_loops 2 [1; 0] [2; 1]) <> fst (order_loops_specified 2 [1; 0] [2; 1]) /\
  fst (order_loops 3 [2; 0; 1] [6; 3; 1]) = [0; 2; 1] /\
  fst (order_loops_specified 3 [2; 0; 1] [6; 3; 1]) = [1; 0; 2].
Proof. repeat split; try reflexivity. vm_compute. discriminate. Qed.

(** C4, amended: the loop order starts as a copy of the normalized
    permutation.  For a normalized rank above 1 the positions before the
    last two are scanned for the entry equal to the last index; the first
    such entry is exchanged with the entry in the second-to-last slot, and
    the output strides at the same two positions are exchanged with it.
    When no such position holds the last index, which includes the case
    that the last index sits in one of the last two slots, and when the
    normalized rank is at most 1, the order is the permutation and the
    output strides are untouched. *)
Theorem loop_order_from_permutation (n : N) (perm os : list N) :
  let start := map (get perm) (iota 0 n) in
  (n <= 1 -> order_loops n perm os = (start, os)) /\
  (1 < n -> (forall i, i + 2 < n -> perm.[i] <> n - 1) ->
   order_loops n perm os = (start, os)) /\
  (forall i,
     1 < n -> i + 2 < n -> perm.[i] = n - 1 ->
     (forall j, j < i -> perm.[j] <> n - 1) ->
     n - 2 < N.of_nat (length os) ->
     let lo := fst (order_loops n perm os) in
     let os' := snd (order_loops n perm os) in
     lo.[i] = perm.[n - 2] /\ lo.[n - 2] = n - 1 /\
     (forall k, k < n -> k <> i -> k <> n - 2 -> lo.[k] = perm.[k]) /\
     os'.[i] = os.[n - 2] /\ os'.[n - 2] = os.[i] /\
     (forall k, k <> i -> k <> n - 2 -> os'.[k] = os.[k]) /\
     length lo = N.to_nat n /\ length os' = length os).
Proof.
  intros start. split; [|split].
  - intros H. apply order_loops_unchanged. left. exact H.
  - intros _ H. apply order_loops_unchanged. right. exact H.
  - intros i Hn Hi E Hfirst Hlen lo os'. subst lo os'.
    rewrite (order_loops_swapped n i perm os Hi E Hfirst). cbn [fst snd].
    fold start.
    assert (Hs : length start = N.to_nat n).
    { unfold start. rewrite length_map, length_iota. lia. }
    destruct (exchange_reads start i (n - 2)) as [A [B [C D]]]; [lia | lia |].
    destruct (exchange_reads os i (n - 2)) as [A' [B' [C' D']]]; [lia | lia |].
    assert (Hi1 : start.[i] = perm.[i]) by (apply get_map_iota; lia).
    assert (Hn2 : start.[n - 2] = perm.[n - 2]) by (apply get_map_iota; lia).
    split; [rewrite A; exact Hn2|]. split; [rewrite B, Hi1; exact E|].
    split.
    { intros k Hk Hki Hkn. rewrite (C k Hki Hkn).
      apply get_map_iota. exact Hk. }
    split; [exact A'|]. split; [exact B'|]. split; [exact C'|].
    split; [rewrite D; exact Hs | exact D'].
Qed.

Lemma loop_order_from_permutation_witness :
  let lo := fst (order_loops 4 [3; 0; 1; 2] [6; 2; 1; 24]) in
  let os' := snd (order_loops 4 [3; 0; 1; 2] [6; 2; 1; 24]) in
  lo.[0] = [3; 0; 1; 2].[4 - 2] /\ lo.[4 - 2] = 4 - 1 /\
  (forall k, k < 4 -> k <> 0 -> k <> 4 - 2 -> lo.[k] = [3; 0; 1; 2].[k]) /\
  os'.[0] = [6; 2; 1; 24].[4 - 2] /\ os'.[4 - 2] = [6; 2; 1; 24].[0] /\
  (forall k, k <> 0 -> k <> 4 - 2 -> os'.[k] = [6; 2; 1; 24].[k]) /\
  length lo = N.to_nat 4 /\ length os' = length [6; 2; 1; 24].
Proof.
  apply (proj2 (proj2 (loop_order_from_permutation 4 [3; 0; 1; 2] [6; 2; 1; 24])) 0).
  - lia.
  - lia.
  - reflexivity.
  - intros j Hj. lia.
  - cbn. lia.
Defined.

(** ** Reordering keeps the dimensions *)

Lemma get_app_left (a b : list N) (k : N) :
  k < N.of_nat (length a) -> (a ++ b).[k] = a.[k].
Proof. intros H. apply app_nth1. lia. Qed.

Lemma get_firstn (n k : N) (a : list N) :
  k < n -> (firstn (N.to_nat n) a).[k] = a.[k].
Proof.
  intros H. unfold get. rewrite nth_firstn.
  destruct (Nat.ltb_spec (N.to_nat k) (N.to_nat n)); [reflexivity | lia].
Qed.

Lemma get_copy_prefix (n k : N) (src dst : list N) :
  k < n -> (copy_prefix n src dst).[k] = src.[k].
Proof.
  intros H. unfold copy_prefix.
  rewrite get_app_left by (rewrite length_map, length_iota; lia).
  apply get_map_iota. exact H.
Qed.

Lemma get_reorder_array (n k : N) (lo a : list N) :
  k < n -> lo.[k] < n -> (reorder_array n lo a).[k] = a.[lo.[k]].
Proof.
  intros Hk Hlo. unfold reorder_array.
  rewrite get_app_left by (rewrite length_map, length_iota; lia).
  rewrite (get_map_iota (fun i => (firstn (N.to_nat n) a).[lo.[i]])) by exact Hk.
  apply get_firstn. exact Hlo.
Qed.

Lemma loop_order_scan_cases (positions : list N) (n : N) (lo os : list N) :
  loop_order_scan positions n lo os = (lo, os) \/
  exists i, In i positions /\
    loop_order_scan positions n lo os
    = (put (put lo i lo.[n - 2]) (n - 2) lo.[i],
       put (put os i os.[n - 2]) (n - 2) os.[i]).
Proof.
  induction positions as [|i rest IH]; [left; reflexivity|].
  cbn [loop_order_scan].
  destruct (N.eqb_spec lo.[i] (n - 1)) as [E|_].
  - right. exists i. split; [left; reflexivity | reflexivity].
  - destruct IH as [IH | [j [Hj IH]]]; [left; exact IH|].
    right. exists j. split; [right; exact Hj | exact IH].
Qed.

(** The loop order and the output strides after the scan are the
    permutation and the output strides read through one map of the loop
    positions, which is its own inverse. *)
Lemma order_loops_exchange (n : N) (perm os : list N) :
  n <= N.of_nat (length os) ->
  exists s : N -> N,
    (forall k, k < n -> s k < n) /\
    (forall k, k < n -> s (s k) = k) /\
    (forall k, k < n ->
       (fst (order_loops n perm os)).[k] = perm.[s k] /\
       (snd (order_loops n perm os)).[k] = os.[s k]).
Proof.
  intros Hlen. unfold order_loops.
  set (start := map (get perm) (iota 0 n)).
  assert (Hstart : forall k, k < n -> start.[k] = perm.[k])
    by (intros k Hk; apply get_map_iota; exact Hk).
  assert (Hid : exists s : N -> N,
            (forall k, k < n -> s k < n) /\ (forall k, k < n -> s (s k) = k) /\
            (forall k, k < n ->
               (fst (start, os)).[k] = perm.[s k] /\ (snd (start, os)).[k] = os.[s k])).
  { exists (fun k => k). repeat split; auto. }
  destruct (N.ltb_spec 1 n) as [Hn|Hn]; [|exact Hid].
  destruct (loop_order_scan_cases (iota 0 (n - 2)) n start os) as [E | [i [Hi E]]];
    rewrite E; [exact Hid|].
  apply In_iota in Hi.
  assert (Hls : length start = N.to_nat n)
    by (unfold start; rewrite length_map, length_iota; lia).
  destruct (exchange_reads start i (n - 2)) as [A [B [C _]]]; [lia | lia|].
  destruct (exchange_reads os i (n - 2)) as [A' [B' [C' _]]]; [lia | lia|].
  exists (fun k => if k =? i then n - 2 else if k =? n - 2 then i else k).
  split; [|split].
  - intros k Hk. destruct (N.eqb_spec k i); [lia|].
    destruct (N.eqb_spec k (n - 2)); lia.
  - intros k Hk. destruct (N.eqb_spec k i) as [->|Hki].
    + destruct (N.eqb_spec (n - 2) i); [lia|]. rewrite N.eqb_refl. reflexivity.
    + destruct (N.eqb_spec k (n - 2)) as [->|Hkn].
      * rewrite N.eqb_refl. reflexivity.
      * destruct (N.eqb_spec k i); [contradiction|].
        destruct (N.eqb_spec k (n - 2)); [contradiction | reflexivity].
  - intros k Hk. cbn [fst snd].
    destruct (N.eqb_spec k i) as [->|Hki].
    + rewrite A, A'. split; [apply Hstart; lia | reflexivity].
    + destruct (N.eqb_spec k (n - 2)) as [->|Hkn].
      * rewrite B, B'. split; [apply Hstart; lia | reflexivity].
      * rewrite (C k Hki Hkn), (C' k Hki Hkn). split; [apply Hstart; exact Hk | reflexivity].
Qed.

Lemma involution_permutes (n : N) (s : N -> N) :
  (forall k, k < n -> s k < n) -> (forall k, k < n -> s (s k) = k) ->
  Permutation (map s (iota 0 n)) (iota 0 n).
Proof.
  intros Hs Hinv. apply NoDup_Permutation_bis.
  - apply NoDup_map_NoDup_ForallPairs; [|apply NoDup_iota].
    intros a b Ha Hb E. apply In_iota in Ha. apply In_iota in Hb.
    rewrite <- (Hinv a), <- (Hinv b) by lia. rewrite E. reflexivity.
  - rewrite length_map. apply le_n.
  - intros x Hx. apply in_map_iff in Hx. destruct Hx as [k [<- Hk]].
    apply In_iota in Hk. apply In_iota. specialize (Hs k ltac:(lia)). lia.
Qed.

Lemma product_Permutation (a b : list N) :
  Permutation a b -> fold_right N.mul 1 a = fold_right N.mul 1 b.
Proof.
  induction 1 as [|x a b _ IH|x y a|a b c _ IH1 _ IH2]; cbn.
  - reflexivity.
  - rewrite IH. reflexivity.
  - lia.
  - congruence.
Qed.

Lemma plan_loops_fields (nz : normalized_problem) (old_range : list N) :
  let n := normalized_dims nz in
  let ol := order_loops n (normalized_perm nz) (normalized_output_stride nz) in
  let plan := plan_loops nz old_range in
  plan_loop_order plan = fst ol /\
  plan_range plan
  = reorder_array n (fst ol) (copy_prefix n (normalized_shape nz) old_range) /\
  plan_input_stride plan = reorder_array n (fst ol) (normalized_input_stride nz) /\
  plan_output_stride plan = snd ol.
Proof.
  intros n ol plan. subst plan ol n. unfold plan_loops.
  destruct (order_loops _ _ _) as [lo os']. repeat split; reflexivity.
Qed.

(** C5: reordering moves dimensions and leaves their values alone.  The
    (extent, input stride, output stride) triples read off the ranges and
    the two stride arrays after the exchange and the two calls of
    [reorder_array] are, as a multiset, the triples of the dimensions of the
    normalized problem; and the product of the ranges is the product of the
    normalized shape. *)
Theorem reordering_preserves_dimensions (nz : normalized_problem)
    (old_range : list N) :
  let n := normalized_dims nz in
  let plan := plan_loops nz old_range in
  is_permutation n (normalized_perm nz) ->
  n <= N.of_nat (length (normalized_output_stride nz)) ->
  Permutation
    (dimension_triples n (plan_range plan) (plan_input_stride plan)
       (plan_output_stride plan))
    (normalized_triples nz) /\
  element_count n (plan_range plan) = element_count n (normalized_shape nz).
Proof.
  intros n plan Hperm Hlen.
  destruct (plan_loops_fields nz old_range) as [_ [Hr [Hi Ho]]].
  fold n plan in Hr, Hi, Ho.
  destruct (order_loops_exchange n (normalized_perm nz)
              (normalized_output_stride nz) Hlen) as [s [Hs [Hinv Hread]]].
  pose proof (is_permutation_valid_perm _ _ Hperm) as [Hrange _].
  assert (Hlo : forall k, k < n ->
            (fst (order_loops n (normalized_perm nz)
                    (normalized_output_stride nz))).[k] < n).
  { intros k Hk. rewrite (proj1 (Hread k Hk)). apply Hrange. apply Hs. exact Hk. }
  split.
  - unfold dimension_triples, normalized_triples. fold n.
    set (T := fun j => ((normalized_shape nz).[(normalized_perm nz).[j]],
                        (normalized_input_stride nz).[(normalized_perm nz).[j]],
                        (normalized_output_stride nz).[j])).
    assert (Heq : map (fun k => ((plan_range plan).[k], (plan_input_stride plan).[k],
                                 (plan_output_stride plan).[k])) (iota 0 n)
                  = map T (map s (iota 0 n))).
    { rewrite map_map. apply map_ext_in.
      intros k Hk. apply In_iota in Hk. assert (Hkn : k < n) by lia.
      rewrite Hr, Hi, Ho.
      rewrite !get_reorder_array by (try apply Hlo; lia).
      rewrite get_copy_prefix by (apply Hlo; lia).
      destruct (Hread k Hkn) as [-> ->]. reflexivity. }
    rewrite Heq. apply Permutation_map. apply involution_permutes; assumption.
  - unfold element_count. apply product_Permutation.
    assert (Heq : map (get (plan_range plan)) (iota 0 n)
                  = map (get (normalized_shape nz))
                      (map (get (normalized_perm nz)) (map s (iota 0 n)))).
    { rewrite !map_map. apply map_ext_in.
      intros k Hk. apply In_iota in Hk. assert (Hkn : k < n) by lia.
      rewrite Hr. rewrite get_reorder_array by (try apply Hlo; lia).
      rewrite get_copy_prefix by (apply Hlo; lia).
      rewrite (proj1 (Hread k Hkn)). reflexivity. }
    rewrite Heq. apply Permutation_map.
    apply perm_trans with (map (get (normalized_perm nz)) (iota 0 n)).
    + apply Permutation_map. apply involution_permutes; assumption.
    + exact Hperm.
Qed.

Lemma is_permutation_checked (n : N) (perm : list N) :
  perm_out_of_range n perm = None -> perm_has_duplicate n perm = false ->
  is_permutation n perm.
Proof.
  intros H1 H2. apply valid_perm_is_permutation. apply valid_perm_checked; assumption.
Qed.

Lemma reordering_preserves_dimensions_witness :
  Permutation
    [(3, 20, 4); (2, 60, 12); (5, 1, 24); (4, 5, 1)]
    [(5, 1, 24); (2, 60, 12); (3, 20, 4); (4, 5, 1)] /\
  element_count 4 [3; 2; 5; 4; 0; 0] = element_count 4 [2; 3; 4; 5].
Proof.
  apply (reordering_preserves_dimensions
           {| normalized_dims := 4; normalized_element_size := 4;
              normalized_perm := [3; 0; 1; 2];
              normalized_shape := [2; 3; 4; 5];
              normalized_input_stride := [60; 20; 5; 1];
              normalized_output_stride := [24; 12; 4; 1] |}
           [0; 0; 0; 0; 0; 0]).
  - apply is_permutation_checked; reflexivity.
  - cbn. lia.
Defined.

(** ** What running a transpose problem writes *)






(** ** Space to depth and back *)

Lemma mul_ge_l (a k : N) : 1 <= k -> a <= a * k.
Proof. intros H. nia. Qed.

Lemma size_mul_small (a b : N) : a * b < 2 ^ SIZE_BITS -> a *% b = a * b.
Proof. intros H. unfold size_mul. apply N.mod_small. exact H. Qed.

Lemma create_space_to_depth_nhwc_success (flag : N) (params : xnn_parameters)
    (memory : bool) (C ics ocs b flags : N) (ty : xnn_operator_type)
    (op : xnn_operator) (tr : list effect) :
  create_space_to_depth_nhwc flag params memory C ics ocs b flags ty
  = (xnn_status_success, Some op, tr) ->
  op = new_operator ty C ics ocs b flags /\
  N.land (init_flags params) flag <> 0 /\
  C <> 0 /\ C <= ics /\ 1 < b /\ C *% b *% b <= ocs.
Proof.
  unfold create_space_to_depth_nhwc.
  destruct (N.eqb_spec (N.land (init_flags params) flag) 0); [discriminate|].
  destruct (N.eqb_spec C 0); [discriminate|].
  destruct (N.ltb_spec ics C); [discriminate|].
  destruct (N.leb_spec b 1); [discriminate|].
  destruct (N.ltb_spec ocs (C *% b *% b)); [discriminate|].
  destruct memory; [|discriminate].
  cbn [negb]. intros [= <- <-]. repeat split; assumption.
Qed.

Lemma create_depth_to_space_nhwc_success (flag : N) (params : xnn_parameters)
    (memory : bool) (C ics ocs b flags : N) (ty : xnn_operator_type)
    (op : xnn_operator) (tr : list effect) :
  create_depth_to_space_nhwc flag params memory C ics ocs b flags ty
  = (xnn_status_success, Some op, tr) ->
  op = new_operator ty C ics ocs b flags /\
  N.land (init_flags params) flag <> 0 /\
  C <> 0 /\ C <= ocs /\ 1 < b /\ C *% b *% b <= ics.
Proof.
  unfold create_depth_to_space_nhwc.
  destruct (N.eqb_spec (N.land (init_flags params) flag) 0); [discriminate|].
  destruct (N.eqb_spec C 0); [discriminate|].
  destruct (N.ltb_spec ocs C); [discriminate|].
  destruct (N.leb_spec b 1); [discriminate|].
  destruct (N.ltb_spec ics (C *% b *% b)); [discriminate|].
  destruct memory; [|discriminate].
  cbn [negb]. intros [= <- <-]. repeat split; assumption.
Qed.

(** The space-to-depth problem for an input of [rows * b] by [cols * b]
    pixels, when no product wraps around. *)
Lemma space_to_depth_problem_exact (ty : xnn_operator_type)
    (C ips ops b flags batch rows cols : N) :
  0 < batch -> 0 < rows -> 0 < cols -> 1 < b -> 0 < C -> C <= ips ->
  C * b * b <= ops ->
  batch * (b * rows) * (b * cols) * ips < 2 ^ SIZE_BITS ->
  batch * rows * cols * ops < 2 ^ SIZE_BITS ->
  space_to_depth_nhwc_problem (new_operator ty C ips ops b flags)
    batch (b * rows) (b * cols)
  = {| problem_shape := [batch * rows; b; cols; b; C];
       problem_perm := [0; 2; 1; 3; 4];
       problem_input_stride :=
         [b * (b * cols) * ips; b * cols * ips; b * ips; ips; 1];
       problem_output_stride := [cols * ops; ops; b * C; C; 1] |}.
Proof.
  intros Hn Hr Hc Hb HC Hips Hops B1 B2.
  unfold space_to_depth_nhwc_problem. cbn [new_operator block_size channels
    input_pixel_stride output_pixel_stride].
  replace (b * rows / b) with rows by (rewrite N.mul_comm, N.div_mul; lia).
  replace (b * cols / b) with cols by (rewrite N.mul_comm, N.div_mul; lia).
  remember (2 ^ SIZE_BITS) as M eqn:HM.
  assert (F1 : 1 <= ops) by nia.
  assert (F2 : 1 <= ips) by lia.
  assert (F3 : 1 <= batch * rows) by nia.
  assert (F4 : b <= batch * (b * rows)) by nia.
  assert (F5 : 1 <= cols * ops) by nia.
  assert (F6 : b * C <= C * b * b) by nia.
  assert (G1 : batch * rows <= batch * rows * cols * ops).
  { rewrite <- (N.mul_assoc (batch * rows)). apply mul_ge_l. exact F5. }
  assert (G2 : cols * ops <= batch * rows * cols * ops).
  { rewrite <- (N.mul_assoc (batch * rows)).
    rewrite <- (N.mul_1_l (cols * ops)) at 1.
    apply N.mul_le_mono_r. exact F3. }
  assert (G3 : b * (b * cols) * ips <= batch * (b * rows) * (b * cols) * ips).
  { apply N.mul_le_mono_r. apply N.mul_le_mono_r. exact F4. }
  assert (G4 : b * (b * cols) <= b * (b * cols) * ips) by (apply mul_ge_l; exact F2).
  assert (G5 : b * cols * ips <= b * (b * cols) * ips).
  { apply N.mul_le_mono_r. rewrite <- (N.mul_1_l (b * cols)) at 1.
    apply N.mul_le_mono_r. lia. }
  assert (G6 : b * ips <= b * cols * ips).
  { apply N.mul_le_mono_r. apply mul_ge_l. lia. }
  assert (G7 : ops <= cols * ops) by nia.
  assert (E1 : batch *% rows = batch * rows).
  { apply size_mul_small. rewrite <- HM. lia. }
  assert (E2 : b *% (b * cols) = b * (b * cols)).
  { apply size_mul_small. rewrite <- HM. lia. }
  assert (E3 : (b * (b * cols)) *% ips = b * (b * cols) * ips).
  { apply size_mul_small. rewrite <- HM. lia. }
  assert (E4 : (b * cols) *% ips = b * cols * ips).
  { apply size_mul_small. rewrite <- HM. lia. }
  assert (E5 : b *% ips = b * ips).
  { apply size_mul_small. rewrite <- HM. lia. }
  assert (E6 : cols *% ops = cols * ops).
  { apply size_mul_small. rewrite <- HM. lia. }
  assert (E7 : b *% C = b * C).
  { apply size_mul_small. rewrite <- HM. lia. }
  rewrite E1, E2, E3, E4, E5, E6, E7. reflexivity.
Qed.

(** The depth-to-space problem that undoes it: the operator reads pixels
    [ops] apart and writes pixels [ips] apart. *)
Lemma depth_to_space_problem_exact (ty : xnn_operator_type)
    (C ips ops b flags batch rows cols : N) :
  0 < batch -> 0 < rows -> 0 < cols -> 1 < b -> 0 < C -> C <= ips ->
  C * b * b <= ops ->
  batch * (b * rows) * (b * cols) * ips < 2 ^ SIZE_BITS ->
  batch * rows * cols * ops < 2 ^ SIZE_BITS ->
  depth_to_space_nhwc_problem (new_operator ty C ops ips b flags) batch rows cols
  = {| problem_shape := [batch * rows; cols; b; b; C];
       problem_perm := [0; 2; 1; 3; 4];
       problem_input_stride := [cols * ops; ops; b * C; C; 1];
       problem_output_stride :=
         [b * cols * (b * ips); cols * (b * ips); b * ips; ips; 1] |}.
Proof.
  intros Hn Hr Hc Hb HC Hips Hops B1 B2.
  unfold depth_to_space_nhwc_problem. cbn [new_operator block_size channels
    input_pixel_stride output_pixel_stride].
  remember (2 ^ SIZE_BITS) as M eqn:HM.
  assert (F1 : 1 <= ops) by nia.
  assert (F2 : 1 <= ips) by lia.
  assert (F3 : 1 <= batch * rows) by nia.
  assert (F4 : b <= batch * (b * rows)) by nia.
  assert (F5 : 1 <= cols * ops) by nia.
  assert (F6 : b * C <= C * b * b) by nia.
  assert (G1 : batch * rows <= batch * rows * cols * ops).
  { rewrite <- (N.mul_assoc (batch * rows)). apply mul_ge_l. exact F5. }
  assert (G2 : cols * ops <= batch * rows * cols * ops).
  { rewrite <- (N.mul_assoc (batch * rows)).
    rewrite <- (N.mul_1_l (cols * ops)) at 1.
    apply N.mul_le_mono_r. exact F3. }
  assert (G3 : b * (b * cols) * ips <= batch * (b * rows) * (b * cols) * ips).
  { apply N.mul_le_mono_r. apply N.mul_le_mono_r. exact F4. }
  assert (G4a : b * cols <= b * (b * cols)).
  { rewrite <- (N.mul_1_l (b * cols)) at 1. apply N.mul_le_mono_r. lia. }
  assert (G4 : b * cols <= b * (b * cols) * ips).
  { pose proof (mul_ge_l (b * (b * cols)) ips F2). lia. }
  assert (G5 : b * cols * ips <= b * (b * cols) * ips).
  { apply N.mul_le_mono_r. rewrite <- (N.mul_1_l (b * cols)) at 1.
    apply N.mul_le_mono_r. lia. }
  assert (G6 : b * ips <= b * cols * ips).
  { apply N.mul_le_mono_r. apply mul_ge_l. lia. }
  assert (G7 : ops <= cols * ops) by nia.
  assert (G8 : b * cols * (b * ips) = b * (b * cols) * ips) by lia.
  assert (G9 : cols * (b * ips) = b * cols * ips) by lia.
  assert (E1 : batch *% rows = batch * rows).
  { apply size_mul_small. rewrite <- HM. lia. }
  assert (E2 : cols *% ops = cols * ops).
  { apply size_mul_small. rewrite <- HM. lia. }
  assert (E3 : b *% C = b * C).
  { apply size_mul_small. rewrite <- HM. lia. }
  assert (E4 : b *% ips = b * ips).
  { apply size_mul_small. rewrite <- HM. lia. }
  assert (E5 : b *% cols = b * cols).
  { apply size_mul_small. rewrite <- HM. lia. }
  assert (E6 : (b * cols) *% (b * ips) = b * cols * (b * ips)).
  { apply size_mul_small. rewrite <- HM. lia. }
  assert (E7 : cols *% (b * ips) = cols * (b * ips)).
  { apply size_mul_small. rewrite <- HM. lia. }
  rewrite E1, E2, E3, E4, E5, E6, E7. reflexivity.
Qed.

Lemma setup_derived_builds (flag : N) (normalize : normalizer)
    (params : xnn_parameters) (op : xnn_operator)
    (batch_size input_height input_width input output num_dims : N)
    (problem : transpose_problem) (element_size : N) :
  N.land (init_flags params) flag <> 0 ->
  batch_size <> 0 -> input_height <> 0 -> input_width <> 0 ->
  setup_derived flag normalize params op (type op) batch_size input_height
    input_width input output num_dims problem element_size
  = setup_transpose_nd normalize params (with_state xnn_run_state_invalid op)
      input output num_dims (problem_shape problem) (problem_perm problem)
      (Some (problem_input_stride problem)) (Some (problem_output_stride problem))
      element_size.
Proof.
  intros Hinit Hb Hh Hw. unfold setup_derived, setup_derived_checks.
  rewrite xnn_operator_type_eqb_refl. cbn [negb].
  destruct (N.eqb_spec (N.land (init_flags params) flag) 0); [contradiction|].
  destruct (N.eqb_spec input_width 0); [contradiction|].
  destruct (N.eqb_spec input_height 0); [contradiction|].
  destruct (N.eqb_spec batch_size 0); [contradiction|].
  reflexivity.
Qed.





(** The 4 by 4 single-channel image [0 .. 15] with blocks of 2: space to
    depth gathers each 2 by 2 block into the four channels of one pixel. *)
Example space_to_depth_4x4 :
  map (run_transpose
         (space_to_depth_nhwc_problem
            (new_operator xnn_operator_type_space_to_depth_nhwc_x32 1 1 4 2 0)
            1 4 4)
         (fun a => a) (fun _ => 0))
      (iota 0 16)
  = [0; 1; 4; 5; 2; 3; 6; 7; 8; 9; 12; 13; 10; 11; 14; 15].
Proof. vm_compute. reflexivity. Qed.

(** Depth to space on that result gives the image back. *)
Example depth_to_space_4x4 :
  map (run_transpose
         (depth_to_space_nhwc_problem
            (new_operator xnn_operator_type_depth_to_space_nhwc_x32 1 4 1 2 0)
            1 2 2)
         (fun a => nth (N.to_nat a)
                     [0; 1; 4; 5; 2; 3; 6; 7; 8; 9; 12; 13; 10; 11; 14; 15] 0)
         (fun _ => 0))
      (iota 0 16)
  = iota 0 16.
Proof. vm_compute. reflexivity. Qed.

(** * Further properties of the operators *)

(** ** The state an operator is left in *)

Lemma build_plan_cases (params : xnn_parameters) (op : xnn_operator)
    (input output : N) (nz : normalized_problem) (trace : list effect) :
  match build_plan params op input output nz trace with
  | Returned st op' tr =>
      valid_rank (normalized_dims nz) /\
      st = xnn_status_success /\ tr = trace /\
      state op' = xnn_run_state_ready /\
      type op' = type op /\ flags op' = flags op /\ channels op' = channels op /\
      block_size op' = block_size op /\
      input_pixel_stride op' = input_pixel_stride op /\
      output_pixel_stride op' = output_pixel_stride op
  | Unreachable => ~ valid_rank (normalized_dims nz)
  end.
Proof.
  unfold build_plan.
  destruct (select_ukernel params (normalized_element_size nz)) as [[[uk w] ts] v].
  destruct (N.eq_dec (normalized_dims nz) 1) as [E|E].
  - rewrite E. cbv iota beta. split; [apply valid_rank_1 | repeat split; reflexivity].
  - destruct (select_task (normalized_dims nz) v) as [[ty fn]|] eqn:Hst.
    + assert (Hr : valid_rank (normalized_dims nz)).
      { apply select_task_reads in Hst. destruct Hst as [Hp [Ht _]].
        unfold valid_rank, XNN_MAX_TENSOR_DIMS. rewrite <- Hp.
        destruct ty; cbn in *; lia. }
      destruct (normalized_dims nz) as [|[p|p|]]; try congruence;
        try discriminate Hst; rewrite Hst;
        (split; [exact Hr | repeat split; reflexivity]).
    + assert (Hn : ~ valid_rank (normalized_dims nz)).
      { intros Hr. destruct (select_task_supported (normalized_dims nz) v)
          as [ty [fn Hs]]; [unfold valid_rank in Hr; lia | congruence]. }
      destruct (normalized_dims nz) as [|[p|p|]]; try congruence;
        try rewrite Hst; exact Hn.
Qed.

Lemma stride_fold_only_logs (extent : N -> N) (stride : list N)
    (msg : N -> N -> log_message) (positions : list N) (acc : N * list effect) :
  (forall e, In e (snd acc) -> exists m, e = xnn_log_error m) ->
  forall e,
    In e (snd (fold_left (check_stride_order extent stride msg) positions acc)) ->
    exists m, e = xnn_log_error m.
Proof.
  revert acc. induction positions as [|i rest IH]; intros [cs tr] H; [exact H|].
  cbn [fold_left]. apply IH. cbn in *.
  destruct (_ || _); cbn; [|exact H].
  intros e He. apply in_app_or in He. destruct He as [He | [<- | []]];
    [apply H; exact He | eexists; reflexivity].
Qed.

Lemma check_stride_only_logs (n : N) (extent : N -> N) (stride : option (list N))
    (msg_last : N -> log_message) (msg_order : N -> N -> log_message) (e : effect) :
  In e (check_stride n extent stride msg_last msg_order) ->
  exists m, e = xnn_log_error m.
Proof.
  destruct stride as [s|]; [|intros []]. unfold check_stride.
  apply stride_fold_only_logs. cbn.
  destruct (negb _); [|intros ? []].
  intros e' [<- | []]. eexists. reflexivity.
Qed.

Lemma stride_trace_only_logs (n : N) (shape perm : list N)
    (istride ostride : option (list N)) (e : effect) :
  In e (stride_trace n shape perm istride ostride) -> exists m, e = xnn_log_error m.
Proof.
  unfold stride_trace. intros H. apply in_app_or in H.
  destruct H as [H|H]; eapply check_stride_only_logs; exact H.
Qed.

Lemma valid_arguments_dec (num_dims : N) (perm : list N) :
  (valid_rank num_dims /\ valid_perm num_dims perm) \/
  ~ (valid_rank num_dims /\ valid_perm num_dims perm).
Proof.
  unfold valid_rank, XNN_MAX_TENSOR_DIMS.
  destruct (N.le_gt_cases 1 num_dims); [|right; lia].
  destruct (N.le_gt_cases num_dims 6); [|right; lia].
  destruct (perm_out_of_range num_dims perm) eqn:E1.
  - right. intros [_ [Hr _]]. apply perm_out_of_range_None in Hr. congruence.
  - destruct (perm_has_duplicate num_dims perm) eqn:E2.
    + right. intros [_ [_ Hd]]. apply perm_has_duplicate_false in Hd. congruence.
    + left. split; [lia|]. apply valid_perm_checked; assumption.
Qed.

Lemma setup_transpose_nd_outcome (normalize : normalizer)
    (params : xnn_parameters) (op : xnn_operator) (input output num_dims : N)
    (shape perm : list N) (istride ostride : option (list N)) (element_size : N) :
  match setup_transpose_nd normalize params op input output num_dims shape perm
          istride ostride element_size with
  | Returned st op' tr =>
      ((st = xnn_status_success /\
        (state op' = xnn_run_state_ready \/ state op' = xnn_run_state_skip) /\
        valid_rank num_dims /\ valid_perm num_dims perm /\
        forall e, In e tr -> exists m, e = xnn_log_error m) \/
       (st = xnn_status_invalid_parameter /\
        state op' = xnn_run_state_invalid /\
        ~ (valid_rank num_dims /\ valid_perm num_dims perm) /\
        In (xnn_delete_operator (Some op')) tr)) /\
      type op' = type op /\ flags op' = flags op /\
      block_size op' = block_size op /\
      input_pixel_stride op' = input_pixel_stride op /\
      output_pixel_stride op' = output_pixel_stride op
  | Unreachable =>
      valid_rank num_dims /\ valid_perm num_dims perm /\
      ~ valid_rank (normalized_dims
                      (normalize num_dims element_size perm shape istride ostride))
  end.
Proof.
  pose proof (valid_arguments_dec num_dims perm) as Hdec.
  destruct Hdec as [[Hr Hp] | Hbad].
  - rewrite setup_transpose_nd_valid by assumption.
    destruct (degenerate_shape num_dims shape).
    + split; [|repeat split; reflexivity]. left.
      split; [reflexivity|]. split; [right; reflexivity|].
      split; [exact Hr|]. split; [exact Hp|].
      intros e. apply stride_trace_only_logs.
    + pose proof (build_plan_cases params
                    (with_channels num_dims (with_state xnn_run_state_invalid op))
                    input output
                    (normalize num_dims element_size perm shape istride ostride)
                    (stride_trace num_dims shape perm istride ostride)) as Hb.
      destruct (build_plan _ _ _ _ _ _) as [st op' tr|].
      * destruct Hb as [_ [-> [-> [Hst [Ht [Hf [_ [Hbs [Hi Ho]]]]]]]]].
        split; [|repeat split; assumption]. left.
        split; [reflexivity|]. split; [left; exact Hst|].
        split; [exact Hr|]. split; [exact Hp|].
        intros e. apply stride_trace_only_logs.
      * split; [exact Hr|]. split; [exact Hp | exact Hb].
  - destruct (setup_transpose_nd_invalid normalize params op input output num_dims
                shape perm istride ostride element_size Hbad) as [m ->].
    split; [|repeat split; reflexivity]. right.
    split; [reflexivity|]. split; [reflexivity|]. split; [exact Hbad|].
    right. left. reflexivity.
Qed.

(** X1: whatever its arguments, [setup_transpose_nd] leaves the operator in a
    state that matches the status: success goes with ready or skip, and the
    only other status is [xnn_status_invalid_parameter], with the state
    invalid and the operator handed to [xnn_delete_operator].  It never
    changes the type, the flags, the block size or the pixel strides of the
    operator.  [XNN_UNREACHABLE] is reached only when the rank and the
    permutation are valid and the normalizer returns a rank outside
    1..6. *)
Theorem setup_state_matches_status (normalize : normalizer)
    (params : xnn_parameters) (op : xnn_operator) (input output num_dims : N)
    (shape perm : list N) (istride ostride : option (list N)) (element_size : N) :
  match setup_transpose_nd normalize params op input output num_dims shape perm
          istride ostride element_size with
  | Returned st op' tr =>
      ((st = xnn_status_success /\
        (state op' = xnn_run_state_ready \/ state op' = xnn_run_state_skip) /\
        valid_rank num_dims /\ valid_perm num_dims perm /\
        forall e, In e tr -> exists m, e = xnn_log_error m) \/
       (st = xnn_status_invalid_parameter /\
        state op' = xnn_run_state_invalid /\
        ~ (valid_rank num_dims /\ valid_perm num_dims perm) /\
        In (xnn_delete_operator (Some op')) tr)) /\
      type op' = type op /\ flags op' = flags op /\
      block_size op' = block_size op /\
      input_pixel_stride op' = input_pixel_stride op /\
      output_pixel_stride op' = output_pixel_stride op
  | Unreachable =>
      valid_rank num_dims /\ valid_perm num_dims perm /\
      ~ valid_rank (normalized_dims
                      (normalize num_dims element_size perm shape istride ostride))
  end.
Proof. apply setup_transpose_nd_outcome. Qed.

(** ** Setting up again *)

Lemma firstn_copy_prefix (n : N) (src dst : list N) :
  firstn (N.to_nat n) (copy_prefix n src dst) = map (get src) (iota 0 n).
Proof.
  unfold copy_prefix.
  rewrite firstn_app, length_map, length_iota.
  replace (N.to_nat n - N.to_nat (n - 0))%nat with 0%nat by lia.
  rewrite firstn_0, app_nil_r. apply firstn_all2.
  rewrite length_map, length_iota. lia.
Qed.

Lemma skipn_prefix {A : Type} (n : nat) (a b : list A) :
  length a = n -> skipn n (a ++ b) = b.
Proof.
  intros <-. rewrite skipn_app, skipn_all, Nat.sub_diag. reflexivity.
Qed.

Lemma skipn_copy_prefix (n : N) (src dst : list N) :
  skipn (N.to_nat n) (copy_prefix n src dst) = skipn (N.to_nat n) dst.
Proof.
  unfold copy_prefix. apply skipn_prefix. rewrite length_map, length_iota. lia.
Qed.

Lemma skipn_reorder_array (n : N) (lo a : list N) :
  skipn (N.to_nat n) (reorder_array n lo a) = skipn (N.to_nat n) a.
Proof.
  unfold reorder_array. apply skipn_prefix. rewrite length_map, length_iota. lia.
Qed.

Lemma plan_loops_old_range (nz : normalized_problem) (r r' : list N) :
  skipn (N.to_nat (normalized_dims nz)) r = skipn (N.to_nat (normalized_dims nz)) r' ->
  plan_loops nz r = plan_loops nz r'.
Proof.
  intros H. unfold plan_loops. destruct (order_loops _ _ _) as [lo os].
  f_equal. unfold reorder_array.
  rewrite !firstn_copy_prefix, !skipn_copy_prefix, H. reflexivity.
Qed.

Lemma skipn_plan_range (nz : normalized_problem) (r : list N) :
  skipn (N.to_nat (normalized_dims nz)) (plan_range (plan_loops nz r))
  = skipn (N.to_nat (normalized_dims nz)) r.
Proof.
  destruct (plan_loops_fields nz r) as [_ [-> _]].
  rewrite skipn_reorder_array. apply skipn_copy_prefix.
Qed.

Lemma build_plan_again (params : xnn_parameters) (op op' : xnn_operator)
    (input output : N) (nz : normalized_problem) (trace : list effect)
    (st : xnn_status) (tr : list effect) (s : xnn_run_state) :
  build_plan params op input output nz trace = Returned st op' tr ->
  build_plan params (with_channels (channels op) (with_state s op'))
    input output nz trace
  = Returned st op' tr.
Proof.
  unfold build_plan.
  destruct (select_ukernel params (normalized_element_size nz)) as [[[uk w] ts] v].
  destruct (N.eq_dec (normalized_dims nz) 1) as [E|E].
  - rewrite E. cbv iota beta. intros [= <- <- <-].
    cbn [compute context channels range tile transpose univector_contiguous
         with_state with_context with_compute with_channels].
    rewrite (plan_loops_old_range nz _ (range (compute op))).
    + destruct (channels op =? 1); reflexivity.
    + rewrite E. rewrite (skipn_copy_prefix 1).
      rewrite <- E. apply skipn_plan_range.
  - destruct (select_task (normalized_dims nz) v) as [[ty fn]|] eqn:Hst.
    + destruct (normalized_dims nz) as [|[p|p|]] eqn:Ed; try congruence;
        try discriminate Hst; rewrite Hst; intros [= <- <- <-];
        cbn [compute context channels range tile transpose univector_contiguous
             with_state with_context with_compute with_channels];
        (rewrite (plan_loops_old_range nz _ (range (compute op)));
         [destruct (channels op =? 1); reflexivity
         | apply skipn_plan_range]).
    + destruct (normalized_dims nz) as [|[p|p|]]; try congruence;
        try rewrite Hst; discriminate.
Qed.

(** X2: setup can be repeated.  When [setup_transpose_nd] has succeeded, a
    second call with the same arguments on the operator it left behind
    returns success again and leaves that operator exactly as it is. *)
Theorem setup_again_changes_nothing (normalize : normalizer)
    (params : xnn_parameters) (op op' : xnn_operator) (input output num_dims : N)
    (shape perm : list N) (istride ostride : option (list N)) (element_size : N)
    (tr : list effect) :
  setup_transpose_nd normalize params op input output num_dims shape perm
    istride ostride element_size = Returned xnn_status_success op' tr ->
  setup_transpose_nd normalize params op' input output num_dims shape perm
    istride ostride element_size = Returned xnn_status_success op' tr.
Proof.
  intros H.
  destruct (valid_arguments_dec num_dims perm) as [[Hr Hp] | Hbad].
  - rewrite setup_transpose_nd_valid in H |- * by assumption.
    destruct (degenerate_shape num_dims shape).
    + injection H as <- <-. reflexivity.
    + apply (build_plan_again params
               (with_channels num_dims (with_state xnn_run_state_invalid op))).
      exact H.
  - destruct (setup_transpose_nd_invalid normalize params op input output num_dims
                shape perm istride ostride element_size Hbad) as [m Hm].
    rewrite Hm in H. discriminate H.
Qed.

Lemma setup_again_changes_nothing_witness :
  exists op',
    setup_transpose_nd normalize_packed example_params zero_operator 1000 2000
      3 [2; 3; 4] [2; 0; 1] None None 4 = Returned xnn_status_success op' [] /\
    setup_transpose_nd normalize_packed example_params op' 1000 2000
      3 [2; 3; 4] [2; 0; 1] None None 4 = Returned xnn_status_success op' [].
Proof.
  eexists. split; [reflexivity|].
  apply (setup_again_changes_nothing normalize_packed example_params zero_operator).
  reflexivity.
Defined.

(** ** The guards of the setup functions *)

Lemma xnn_operator_type_eqb_neq (a b : xnn_operator_type) :
  a <> b -> xnn_operator_type_eqb a b = false.
Proof. intros H. destruct a, b; try reflexivity; contradiction H; reflexivity. Qed.

Lemma setup_derived_wrong_type (flag : N) (normalize : normalizer)
    (params : xnn_parameters) (op : xnn_operator) (expected : xnn_operator_type)
    (batch_size input_height input_width input output num_dims : N)
    (problem : transpose_problem) (element_size : N) :
  type op <> expected ->
  setup_derived flag normalize params op expected batch_size input_height
    input_width input output num_dims problem element_size
  = Returned xnn_status_invalid_parameter op
      [xnn_log_error (log_type_mismatch expected (type op))].
Proof.
  intros H. unfold setup_derived, setup_derived_checks.
  rewrite (xnn_operator_type_eqb_neq _ _ H). reflexivity.
Qed.

Lemma setup_derived_uninitialized (flag : N) (normalize : normalizer)
    (params : xnn_parameters) (op : xnn_operator)
    (batch_size input_height input_width input output num_dims : N)
    (problem : transpose_problem) (element_size : N) :
  N.land (init_flags params) flag = 0 ->
  setup_derived flag normalize params op (type op) batch_size input_height
    input_width input output num_dims problem element_size
  = Returned xnn_status_uninitialized (with_state xnn_run_state_invalid op)
      [xnn_log_error log_not_initialized].
Proof.
  intros H. unfold setup_derived, setup_derived_checks.
  rewrite xnn_operator_type_eqb_refl, H. reflexivity.
Qed.

(** X3: a setup function given an operator of another type returns
    [xnn_status_invalid_parameter] and leaves the operator exactly as it was:
    the state is not reset and the operator is not deleted.  This holds for
    the three transpose setup functions and the three derived ones, whatever
    the other arguments are. *)
Theorem setup_rejects_other_type (flag : N) (normalize : normalizer)
    (params : xnn_parameters) (op : xnn_operator)
    (input output num_dims batch_size input_height input_width element_size : N)
    (shape perm : list N) (expected : xnn_operator_type) :
  type op <> expected ->
  let rejected :=
    Returned xnn_status_invalid_parameter op
      [xnn_log_error (log_type_mismatch expected (type op))] in
  (expected = xnn_operator_type_transpose_nd_x32 ->
   xnn_setup_transpose_nd_x32 normalize params op input output num_dims shape perm
   = rejected) /\
  (expected = xnn_operator_type_transpose_nd_x16 ->
   xnn_setup_transpose_nd_x16 normalize params op input output num_dims shape perm
   = rejected) /\
  (expected = xnn_operator_type_transpose_nd_x8 ->
   xnn_setup_transpose_nd_x8 normalize params op input output num_dims shape perm
   = rejected) /\
  (expected = xnn_operator_type_depth_to_space_nchw2nhwc_x32 ->
   xnn_setup_depth_to_space_nchw2nhwc_x32 flag normalize params op
     batch_size input_height input_width input output = rejected) /\
  setup_depth_to_space_nhwc flag normalize params op expected
    batch_size input_height input_width input output element_size = rejected /\
  setup_space_to_depth_nhwc flag normalize params op expected
    batch_size input_height input_width input output element_size = rejected.
Proof.
  intros H rejected. subst rejected.
  unfold xnn_setup_transpose_nd_x32, xnn_setup_transpose_nd_x16,
    xnn_setup_transpose_nd_x8, setup_transpose_nd_typed,
    xnn_setup_depth_to_space_nchw2nhwc_x32, setup_depth_to_space_nhwc,
    setup_space_to_depth_nhwc.
  repeat split.
  - intros ->. rewrite (xnn_operator_type_eqb_neq _ _ H). reflexivity.
  - intros ->. rewrite (xnn_operator_type_eqb_neq _ _ H). reflexivity.
  - intros ->. rewrite (xnn_operator_type_eqb_neq _ _ H). reflexivity.
  - intros ->. apply setup_derived_wrong_type. exact H.
  - apply setup_derived_wrong_type. exact H.
  - apply setup_derived_wrong_type. exact H.
Qed.

Lemma setup_rejects_other_type_witness :
  setup_space_to_depth_nhwc 1 normalize_packed example_params
    (with_state xnn_run_state_ready
       (new_operator xnn_operator_type_depth_to_space_nhwc_x32 1 4 1 2 0))
    xnn_operator_type_space_to_depth_nhwc_x32 1 4 4 1000 2000 4
  = Returned xnn_status_invalid_parameter
      (with_state xnn_run_state_ready
         (new_operator xnn_operator_type_depth_to_space_nhwc_x32 1 4 1 2 0))
      [xnn_log_error
         (log_type_mismatch xnn_operator_type_space_to_depth_nhwc_x32
            xnn_operator_type_depth_to_space_nhwc_x32)].
Proof.
  apply (setup_rejects_other_type 1 normalize_packed example_params
           (with_state xnn_run_state_ready
              (new_operator xnn_operator_type_depth_to_space_nhwc_x32 1 4 1 2 0))
           1000 2000 5 1 4 4 4 [] []
           xnn_operator_type_space_to_depth_nhwc_x32).
  discriminate.
Defined.

(** ** What the derived setup functions never do *)

(** ** What the derived setup functions never do *)

Lemma xnn_operator_type_eqb_eq (a b : xnn_operator_type) :
  xnn_operator_type_eqb a b = true -> a = b.
Proof. destruct a, b; try reflexivity; discriminate. Qed.

Lemma setup_derived_outcome (flag : N) (normalize : normalizer)
    (params : xnn_parameters) (op : xnn_operator) (expected : xnn_operator_type)
    (batch_size input_height input_width input output num_dims : N)
    (problem : transpose_problem) (element_size : N) :
  valid_rank num_dims -> valid_perm num_dims (problem_perm problem) ->
  derived_outcome_ok flag params op expected input_height input_width
    (setup_derived flag normalize params op expected batch_size input_height
       input_width input output num_dims problem element_size).
Proof.
  intros Hr Hp. unfold setup_derived, setup_derived_checks.
  destruct (xnn_operator_type_eqb (type op) expected) eqn:Et; cbn [negb].
  2:{ cbn. split.
      { intros e [<- | []]. eexists. reflexivity. }
      split; [right; left; reflexivity|].
      split; [discriminate|].
      split; [intros _; left; intros E; rewrite E, xnn_operator_type_eqb_refl in Et;
              discriminate|].
      split; [discriminate|]. repeat split; reflexivity. }
  apply xnn_operator_type_eqb_eq in Et.
  destruct (N.eqb_spec (N.land (init_flags params) flag) 0) as [Ei|Ei].
  { cbn. split.
    { intros e [<- | []]. eexists. reflexivity. }
    split; [right; right; reflexivity|].
    split; [discriminate|]. split; [discriminate|].
    split; [intros _; split; assumption|]. repeat split; reflexivity. }
  destruct (N.eqb_spec input_width 0) as [Ew|Ew];
    [|destruct (N.eqb_spec input_height 0) as [Eh|Eh]].
  1,2: cbn; (split; [intros e [<- | []]; eexists; reflexivity|]);
    (split; [right; left; reflexivity|]);
    (split; [discriminate|]);
    (split; [intros _; right; tauto|]);
    (split; [discriminate|]); repeat split; reflexivity.
  cbn [orb].
  destruct (N.eqb_spec batch_size 0) as [Eb|Eb].
  { cbn. split; [intros e []|].
    split; [left; reflexivity|].
    split; [intros _; right; reflexivity|].
    split; [discriminate|]. split; [discriminate|]. repeat split; reflexivity. }
  rewrite setup_transpose_nd_valid by assumption.
  destruct (degenerate_shape num_dims (problem_shape problem)).
  { unfold derived_outcome_ok, only_logs. cbv iota beta.
    split; [intros e; apply stride_trace_only_logs|].
    split; [left; reflexivity|].
    split; [intros _; right; reflexivity|].
    split; [discriminate|]. split; [discriminate|]. repeat split; reflexivity. }
  match goal with
  | |- context [build_plan ?p ?o ?i ?u ?z ?t] =>
      pose proof (build_plan_cases p o i u z t) as Hb;
      destruct (build_plan p o i u z t) as [st op' tr|]
  end; [|exact I].
  destruct Hb as [_ [-> [-> [Hst [Ht [_ [_ [Hbs [Hi Ho]]]]]]]]].
  unfold derived_outcome_ok, only_logs. cbv iota beta.
  split; [intros e; apply stride_trace_only_logs|].
  split; [left; reflexivity|].
  split; [intros _; left; exact Hst|].
  split; [discriminate|]. split; [discriminate|].
  repeat split; assumption.
Qed.

Lemma valid_rank_5 : valid_rank 5.
Proof. unfold valid_rank, XNN_MAX_TENSOR_DIMS. lia. Qed.

Lemma valid_rank_6 : valid_rank 6.
Proof. unfold valid_rank, XNN_MAX_TENSOR_DIMS. lia. Qed.

(** X4: the depth-to-space and space-to-depth setup functions never hand
    the operator to [xnn_delete_operator], whatever they are given: their
    traces hold messages only.  They return success with the state ready or
    skip, [xnn_status_invalid_parameter] only for an operator of another
    type or a zero input width or height, or [xnn_status_uninitialized]
    only when the library is not initialised; and they never change the
    type, the block size or the pixel strides of the operator.  In
    particular the permutations they build always pass the checks of
    [setup_transpose_nd]. *)
Theorem derived_setup_never_deletes (flag : N) (normalize : normalizer)
    (params : xnn_parameters) (op : xnn_operator) (expected : xnn_operator_type)
    (batch_size input_height input_width input output element_size : N) :
  derived_outcome_ok flag params op expected input_height input_width
    (setup_depth_to_space_nhwc flag normalize params op expected
       batch_size input_height input_width input output element_size) /\
  derived_outcome_ok flag params op expected input_height input_width
    (setup_space_to_depth_nhwc flag normalize params op expected
       batch_size input_height input_width input output element_size) /\
  derived_outcome_ok flag params op
    xnn_operator_type_depth_to_space_nchw2nhwc_x32 input_height input_width
    (xnn_setup_depth_to_space_nchw2nhwc_x32 flag normalize params op
       batch_size input_height input_width input output).
Proof.
  unfold setup_depth_to_space_nhwc, setup_space_to_depth_nhwc,
    xnn_setup_depth_to_space_nchw2nhwc_x32.
  split; [|split].
  - apply setup_derived_outcome; [exact valid_rank_5|].
    apply valid_perm_checked; reflexivity.
  - apply setup_derived_outcome; [exact valid_rank_5|].
    apply valid_perm_checked; reflexivity.
  - apply setup_derived_outcome; [exact valid_rank_6|].
    apply valid_perm_checked; reflexivity.
Qed.

(** X5: space to depth on an image smaller than one block moves nothing.
    When the input height or the input width is below the block size of
    the operator (all sizes non-zero, the type as expected, the library
    initialised), [setup_space_to_depth_nhwc] returns success with the state
    skip and leaves the rest of the operator as it was: the quotient
    [input_height / block_size] or [input_width / block_size] is a zero
    extent of the problem it builds.  The call need not be quiet: its trace
    is what the stride checks log for that problem, log messages only and
    no deletion, and for a width below the block size it is not empty. *)
Theorem space_to_depth_below_block_skips (flag : N) (normalize : normalizer)
    (params : xnn_parameters) (op : xnn_operator)
    (batch_size input_height input_width input output element_size : N) :
  N.land (init_flags params) flag <> 0 ->
  batch_size <> 0 -> input_height <> 0 -> input_width <> 0 ->
  input_height < block_size op \/ input_width < block_size op ->
  setup_space_to_depth_nhwc flag normalize params op (type op)
    batch_size input_height input_width input output element_size
  = Returned xnn_status_success (with_state xnn_run_state_skip op)
      (stride_trace 5
         (problem_shape
            (space_to_depth_nhwc_problem op batch_size input_height input_width))
         (problem_perm
            (space_to_depth_nhwc_problem op batch_size input_height input_width))
         (Some (problem_input_stride
                  (space_to_depth_nhwc_problem op batch_size input_height
                     input_width)))
         (Some (problem_output_stride
                  (space_to_depth_nhwc_problem op batch_size input_height
                     input_width)))) /\
  only_logs
    (stride_trace 5
       (problem_shape
          (space_to_depth_nhwc_problem op batch_size input_height input_width))
       (problem_perm
          (space_to_depth_nhwc_problem op batch_size input_height input_width))
       (Some (problem_input_stride
                (space_to_depth_nhwc_problem op batch_size input_height
                   input_width)))
       (Some (problem_output_stride
                (space_to_depth_nhwc_problem op batch_size input_height
                   input_width)))).
Proof.
  intros Hinit Hb Hh Hw Hsmall.
  split; [|intros e; apply stride_trace_only_logs].
  unfold setup_space_to_depth_nhwc.
  rewrite setup_derived_builds by assumption.
  rewrite setup_transpose_nd_degenerate.
  - reflexivity.
  - exact valid_rank_5.
  - apply valid_perm_checked; reflexivity.
  - destruct Hsmall as [Hs|Hs].
    + exists 0. split; [lia|].
      change ((problem_shape (space_to_depth_nhwc_problem op batch_size
                                input_height input_width)).[0])
        with (batch_size *% (input_height / block_size op)).
      rewrite (N.div_small _ _ Hs). unfold size_mul.
      rewrite N.mul_0_r. reflexivity.
    + exists 2. split; [lia|].
      change ((problem_shape (space_to_depth_nhwc_problem op batch_size
                                input_height input_width)).[2])
        with (input_width / block_size op).
      apply N.div_small. exact Hs.
Qed.

(** An 8 by 3 image with blocks of 4: the width is below the block size, the
    operator is skipped, and both stride checks log a message. *)
Lemma space_to_depth_below_block_skips_witness :
  setup_space_to_depth_nhwc 1 normalize_packed example_params
    (new_operator xnn_operator_type_space_to_depth_nhwc_x32 1 1 16 4 0)
    xnn_operator_type_space_to_depth_nhwc_x32 1 8 3 1000 2000 4
  = Returned xnn_status_success
      (with_state xnn_run_state_skip
         (new_operator xnn_operator_type_space_to_depth_nhwc_x32 1 1 16 4 0))
      [xnn_log_error (log_input_stride_order 0 4);
       xnn_log_error (log_output_stride_order 0 16)].
Proof.
  destruct (space_to_depth_below_block_skips 1 normalize_packed example_params
              (new_operator xnn_operator_type_space_to_depth_nhwc_x32 1 1 16 4 0)
              1 8 3 1000 2000 4) as [H _].
  - vm_compute. discriminate.
  - discriminate.
  - discriminate.
  - discriminate.
  - right. vm_compute. reflexivity.
  - exact H.
Defined.

(** ** Strides that pass the checks *)

Lemma size_mul_le (a b : N) : a *% b <= a * b.
Proof. unfold size_mul. apply N.Div0.mod_le. Qed.

Lemma iota_last (lo hi : N) : lo <= hi -> iota lo (hi + 1) = iota lo hi ++ [hi].
Proof.
  intros H. unfold iota.
  replace (N.to_nat (hi + 1) - N.to_nat lo)%nat
    with ((N.to_nat hi - N.to_nat lo) + 1)%nat by lia.
  rewrite seq_app, map_app. cbn [seq map]. do 2 f_equal.
  replace (N.to_nat lo + (N.to_nat hi - N.to_nat lo))%nat with (N.to_nat hi) by lia.
  apply N2Nat.id.
Qed.

Lemma stride_fold_quiet (extent : N -> N) (stride : list N)
    (msg : N -> N -> log_message) (n : N) :
  (forall i, 0 < i -> i < n ->
     1 <= extent i /\ stride.[i] * extent i <= stride.[i - 1]) ->
  forall k cs tr, k < n -> cs <= stride.[k] ->
    snd (fold_left (check_stride_order extent stride msg)
                   (rev (iota 1 (k + 1))) (cs, tr)) = tr.
Proof.
  intros Hmono k. induction k as [|k IH] using N.peano_ind; intros cs tr Hk Hcs.
  - reflexivity.
  - rewrite <- N.add_1_r in Hk, Hcs |- *. rewrite (iota_last 1 (k + 1)) by lia.
    rewrite rev_app_distr. cbn [rev app fold_left].
    destruct (Hmono (k + 1) ltac:(lia) ltac:(lia)) as [He Hs].
    replace (k + 1 - 1) with k in Hs by lia.
    unfold check_stride_order at 2.
    replace (k + 1 - 1) with k by lia.
    pose proof (size_mul_le stride.[k + 1] (extent (k + 1))) as Hw1.
    pose proof (size_mul_le cs (extent (k + 1))) as Hw2.
    assert (Hcs' : cs * extent (k + 1) <= stride.[k + 1] * extent (k + 1))
      by (apply N.mul_le_mono_r; exact Hcs).
    assert (Hge : stride.[k + 1] <= stride.[k + 1] * extent (k + 1))
      by (apply mul_ge_l; exact He).
    destruct (N.ltb_spec stride.[k] (stride.[k + 1] *% extent (k + 1))); [lia|].
    destruct (N.ltb_spec stride.[k] cs); [lia|].
    cbn [orb]. apply IH; lia.
Qed.

Lemma check_stride_quiet (n : N) (extent : N -> N) (stride : list N)
    (msg_last : N -> log_message) (msg_order : N -> N -> log_message) :
  stride.[n - 1] = 1 ->
  (forall i, 0 < i -> i < n ->
     1 <= extent i /\ stride.[i] * extent i <= stride.[i - 1]) ->
  check_stride n extent (Some stride) msg_last msg_order = [].
Proof.
  intros Hlast Hmono. unfold check_stride. rewrite Hlast. cbn [N.eqb Pos.eqb negb].
  destruct (N.eq_dec n 0) as [->|Hn]; [reflexivity|].
  replace n with (n - 1 + 1) at 1 by lia.
  apply (stride_fold_quiet extent stride msg_order n Hmono); lia.
Qed.

Lemma stride_trace_quiet (num_dims : N) (shape perm istride ostride : list N) :
  (forall i, i < num_dims -> perm.[i] < num_dims) ->
  (forall i, i < num_dims -> 1 <= shape.[i]) ->
  istride.[num_dims - 1] = 1 -> ostride.[num_dims - 1] = 1 ->
  (forall i, 0 < i -> i < num_dims ->
     istride.[i] * shape.[i] <= istride.[i - 1] /\
     ostride.[i] * shape.[perm.[i]] <= ostride.[i - 1]) ->
  stride_trace num_dims shape perm (Some istride) (Some ostride) = [].
Proof.
  intros Hp Hpos Hil Hol Hmono. unfold stride_trace.
  rewrite (check_stride_quiet num_dims (fun i => shape.[i]) istride); try assumption.
  - rewrite (check_stride_quiet num_dims (fun i => shape.[perm.[i]]) ostride);
      try assumption; [reflexivity|].
    intros i H0 Hi. split; [|apply (Hmono i H0 Hi)].
    apply Hpos. apply Hp. exact Hi.
  - intros i H0 Hi. split; [apply Hpos; exact Hi | apply (Hmono i H0 Hi)].
Qed.

Lemma setup_transpose_nd_quiet (normalize : normalizer)
    (params : xnn_parameters) (op : xnn_operator) (input output num_dims : N)
    (shape perm : list N) (istride ostride : option (list N)) (element_size : N) :
  valid_rank num_dims -> valid_perm num_dims perm ->
  (forall i, i < num_dims -> 1 <= shape.[i]) ->
  stride_trace num_dims shape perm istride ostride = [] ->
  match setup_transpose_nd normalize params op input output num_dims shape perm
          istride ostride element_size with
  | Returned st op' tr =>
      st = xnn_status_success /\ tr = [] /\ state op' = xnn_run_state_ready
  | Unreachable =>
      ~ valid_rank (normalized_dims
                      (normalize num_dims element_size perm shape istride ostride))
  end.
Proof.
  intros Hr Hp Hpos Hq.
  rewrite setup_transpose_nd_valid by assumption.
  assert (Hd : degenerate_shape num_dims shape = false).
  { apply not_true_iff_false. intros Hd. apply degenerate_shape_true in Hd.
    destruct Hd as [i [Hi E]]. specialize (Hpos i Hi). lia. }
  rewrite Hd, Hq.
  match goal with
  | |- context [build_plan ?p ?o ?i ?u ?z ?t] =>
      pose proof (build_plan_cases p o i u z t) as Hb;
      destruct (build_plan p o i u z t) as [st op' tr|]
  end; [|exact Hb].
  destruct Hb as [_ [-> [-> [Hst _]]]]. repeat split. exact Hst.
Qed.

(** X6: the stride checks of [setup_transpose_nd] are silent on well-formed
    strides.  With a valid rank and permutation and no zero extent, if the
    last input and output strides are 1 and each stride is, as a natural
    number, at least the next stride times the next extent, then no message
    is logged and the call returns success. *)
Theorem monotone_strides_pass_silently (normalize : normalizer)
    (params : xnn_parameters) (op : xnn_operator) (input output num_dims : N)
    (shape perm istride ostride : list N) (element_size : N) :
  valid_rank num_dims -> valid_perm num_dims perm ->
  (forall i, i < num_dims -> 1 <= shape.[i]) ->
  istride.[num_dims - 1] = 1 -> ostride.[num_dims - 1] = 1 ->
  (forall i, 0 < i -> i < num_dims ->
     istride.[i] * shape.[i] <= istride.[i - 1] /\
     ostride.[i] * shape.[perm.[i]] <= ostride.[i - 1]) ->
  stride_trace num_dims shape perm (Some istride) (Some ostride) = [] /\
  match setup_transpose_nd normalize params op input output num_dims shape perm
          (Some istride) (Some ostride) element_size with
  | Returned st op' tr =>
      st = xnn_status_success /\ tr = [] /\ state op' = xnn_run_state_ready
  | Unreachable =>
      ~ valid_rank (normalized_dims
                      (normalize num_dims element_size perm shape
                         (Some istride) (Some ostride)))
  end.
Proof.
  intros Hr Hp Hpos Hil Hol Hmono.
  assert (Hq : stride_trace num_dims shape perm (Some istride) (Some ostride) = []).
  { apply stride_trace_quiet; try assumption. apply Hp. }
  split; [exact Hq|]. apply setup_transpose_nd_quiet; assumption.
Qed.

Lemma below_2 (P : N -> Prop) : P 0 -> P 1 -> forall i, i < 2 -> P i.
Proof.
  intros H0 H1 i Hi. assert (E : i = 0 \/ i = 1) by lia.
  destruct E as [-> | ->]; assumption.
Qed.

Lemma below_5 (P : N -> Prop) :
  P 0 -> P 1 -> P 2 -> P 3 -> P 4 -> forall i, i < 5 -> P i.
Proof.
  intros H0 H1 H2 H3 H4 i Hi.
  assert (E : i = 0 \/ i = 1 \/ i = 2 \/ i = 3 \/ i = 4) by lia.
  destruct E as [-> | [-> | [-> | [-> | ->]]]]; assumption.
Qed.

Lemma monotone_strides_pass_silently_witness :
  stride_trace 2 [2; 3] [1; 0] (Some [3; 1]) (Some [2; 1]) = [] /\
  match setup_transpose_nd normalize_packed example_params zero_operator 1000 2000
          2 [2; 3] [1; 0] (Some [3; 1]) (Some [2; 1]) 4 with
  | Returned st op' tr =>
      st = xnn_status_success /\ tr = [] /\ state op' = xnn_run_state_ready
  | Unreachable =>
      ~ valid_rank (normalized_dims
                      (normalize_packed 2 4 [1; 0] [2; 3] (Some [3; 1]) (Some [2; 1])))
  end.
Proof.
  apply (monotone_strides_pass_silently normalize_packed example_params
           zero_operator 1000 2000 2 [2; 3] [1; 0] [3; 1] [2; 1] 4).
  - exact valid_rank_2.
  - apply valid_perm_checked; reflexivity.
  - apply (below_2 (fun i => 1 <= [2; 3].[i])); vm_compute; discriminate.
  - reflexivity.
  - reflexivity.
  - assert (H : forall i, i < 2 -> 0 < i ->
                [3; 1].[i] * [2; 3].[i] <= [3; 1].[i - 1] /\
                [2; 1].[i] * [2; 3].[[1; 0].[i]] <= [2; 1].[i - 1]).
    { apply (below_2 (fun i => 0 < i ->
                [3; 1].[i] * [2; 3].[i] <= [3; 1].[i - 1] /\
                [2; 1].[i] * [2; 3].[[1; 0].[i]] <= [2; 1].[i - 1]));
        intros H0; [lia|]. vm_compute. split; discriminate. }
    intros i H0 Hi. apply H; assumption.
Defined.

Lemma block_channels_exact (C ips b batch rows cols : N) :
  C <= ips -> 1 < b -> 0 < batch -> 0 < rows -> 0 < cols ->
  batch * (b * rows) * (b * cols) * ips < 2 ^ SIZE_BITS ->
  C *% b *% b = C * b * b.
Proof.
  intros Hips Hb Hn Hr Hc B1.
  remember (2 ^ SIZE_BITS) as M eqn:HM.
  assert (F1 : C * b * b <= ips * b * b).
  { apply N.mul_le_mono_r. apply N.mul_le_mono_r. exact Hips. }
  assert (F2 : ips * b * b <= batch * (b * rows) * (b * cols) * ips).
  { replace (batch * (b * rows) * (b * cols) * ips)
      with (ips * b * b * (batch * rows * cols)) by ring.
    apply mul_ge_l. nia. }
  assert (F3 : C * b <= C * b * b) by (apply mul_ge_l; lia).
  rewrite (size_mul_small C b) by (rewrite <- HM; lia).
  apply size_mul_small. rewrite <- HM. lia.
Qed.

Ltac read_arrays := cbv -[N.mul N.le N.lt N.add].

(** X7: an operator made by [create_space_to_depth_nhwc] passes the stride
    checks of setup without a message.  For an input of [rows * b] by
    [cols * b] pixels whose input and output tensors fit the address space,
    [setup_space_to_depth_nhwc] logs nothing and returns success with the
    state ready. *)
Theorem space_to_depth_setup_is_quiet (flag : N) (normalize : normalizer)
    (params : xnn_parameters) (memory : bool) (C ips ops b flags : N)
    (ty : xnn_operator_type) (op : xnn_operator) (tr0 : list effect)
    (batch rows cols input output element_size : N) :
  create_space_to_depth_nhwc flag params memory C ips ops b flags ty
  = (xnn_status_success, Some op, tr0) ->
  0 < batch -> 0 < rows -> 0 < cols ->
  batch * (b * rows) * (b * cols) * ips < 2 ^ SIZE_BITS ->
  batch * rows * cols * ops < 2 ^ SIZE_BITS ->
  let p := space_to_depth_nhwc_problem op batch (b * rows) (b * cols) in
  match setup_space_to_depth_nhwc flag normalize params op ty
          batch (b * rows) (b * cols) input output element_size with
  | Returned st op' tr =>
      st = xnn_status_success /\ tr = [] /\ state op' = xnn_run_state_ready
  | Unreachable =>
      ~ valid_rank (normalized_dims
                      (normalize 5 element_size (problem_perm p) (problem_shape p)
                         (Some (problem_input_stride p))
                         (Some (problem_output_stride p))))
  end.
Proof.
  intros Hc Hn Hr Hcl B1 B2 p.
  apply create_space_to_depth_nhwc_success in Hc.
  destruct Hc as [-> [Hinit [HC0 [Hips [Hb Hops]]]]].
  rewrite (block_channels_exact C ips b batch rows cols) in Hops by assumption.
  assert (HC : 0 < C) by lia.
  unfold setup_space_to_depth_nhwc.
  rewrite (setup_derived_builds flag normalize params
             (new_operator ty C ips ops b flags)) by (assumption || nia).
  subst p.
  rewrite (space_to_depth_problem_exact ty C ips ops b flags batch rows cols)
    by assumption.
  cbn [problem_shape problem_perm problem_input_stride problem_output_stride].
  assert (Hpos : forall i, i < 5 -> 1 <= [batch * rows; b; cols; b; C].[i]).
  { apply (below_5 (fun i => 1 <= [batch * rows; b; cols; b; C].[i]));
      read_arrays; nia. }
  apply setup_transpose_nd_quiet.
  - exact valid_rank_5.
  - apply valid_perm_checked; reflexivity.
  - exact Hpos.
  - apply stride_trace_quiet.
    + apply valid_perm_checked; reflexivity.
    + exact Hpos.
    + reflexivity.
    + reflexivity.
    + intros i H0 Hi. revert H0. revert i Hi.
      apply (below_5 (fun i => 0 < i ->
               [b * (b * cols) * ips; b * cols * ips; b * ips; ips; 1].[i]
               * [batch * rows; b; cols; b; C].[i]
               <= [b * (b * cols) * ips; b * cols * ips; b * ips; ips; 1].[i - 1] /\
               [cols * ops; ops; b * C; C; 1].[i]
               * [batch * rows; b; cols; b; C].[[0; 2; 1; 3; 4].[i]]
               <= [cols * ops; ops; b * C; C; 1].[i - 1]));
        intros H0; try lia; read_arrays; split; lia.
Qed.

Lemma space_to_depth_setup_is_quiet_witness :
  match setup_space_to_depth_nhwc 1 normalize_packed example_params
          (new_operator xnn_operator_type_space_to_depth_nhwc_x32 1 1 4 2 0)
          xnn_operator_type_space_to_depth_nhwc_x32
          1 (2 * 2) (2 * 2) 1000 2000 4 with
  | Returned st op' tr =>
      st = xnn_status_success /\ tr = [] /\ state op' = xnn_run_state_ready
  | Unreachable => False
  end.
Proof.
  pose proof (space_to_depth_setup_is_quiet 1 normalize_packed example_params true
                1 1 4 2 0 xnn_operator_type_space_to_depth_nhwc_x32
                (new_operator xnn_operator_type_space_to_depth_nhwc_x32 1 1 4 2 0)
                [] 1 2 2 1000 2000 4 eq_refl) as H.
  cbv zeta in H.
  destruct (setup_space_to_depth_nhwc 1 normalize_packed example_params
              (new_operator xnn_operator_type_space_to_depth_nhwc_x32 1 1 4 2 0)
              xnn_operator_type_space_to_depth_nhwc_x32
              1 (2 * 2) (2 * 2) 1000 2000 4) as [st op' tr|] eqn:E.
  - apply H; try lia; vm_compute; reflexivity.
  - vm_compute in E. discriminate E.
Defined.

(** X8: an operator made by [create_depth_to_space_nhwc] passes the stride
    checks of setup without a message.  For a non-empty input whose input
    and output tensors fit the address space, [setup_depth_to_space_nhwc]
    logs nothing and returns success with the state ready. *)
Theorem depth_to_space_setup_is_quiet (flag : N) (normalize : normalizer)
    (params : xnn_parameters) (memory : bool) (C ics ocs b flags : N)
    (ty : xnn_operator_type) (op : xnn_operator) (tr0 : list effect)
    (batch H W input output element_size : N) :
  create_depth_to_space_nhwc flag params memory C ics ocs b flags ty
  = (xnn_status_success, Some op, tr0) ->
  0 < batch -> 0 < H -> 0 < W ->
  batch * (b * H) * (b * W) * ocs < 2 ^ SIZE_BITS ->
  batch * H * W * ics < 2 ^ SIZE_BITS ->
  let p := depth_to_space_nhwc_problem op batch H W in
  match setup_depth_to_space_nhwc flag normalize params op ty
          batch H W input output element_size with
  | Returned st op' tr =>
      st = xnn_status_success /\ tr = [] /\ state op' = xnn_run_state_ready
  | Unreachable =>
      ~ valid_rank (normalized_dims
                      (normalize 5 element_size (problem_perm p) (problem_shape p)
                         (Some (problem_input_stride p))
                         (Some (problem_output_stride p))))
  end.
Proof.
  intros Hc Hn HH HW B1 B2 p.
  apply create_depth_to_space_nhwc_success in Hc.
  destruct Hc as [-> [Hinit [HC0 [Hocs [Hb Hics]]]]].
  rewrite (block_channels_exact C ocs b batch H W) in Hics by assumption.
  assert (HC : 0 < C) by lia.
  unfold setup_depth_to_space_nhwc.
  rewrite (setup_derived_builds flag normalize params
             (new_operator ty C ics ocs b flags)) by (assumption || lia).
  subst p.
  rewrite (depth_to_space_problem_exact ty C ocs ics b flags batch H W)
    by assumption.
  cbn [problem_shape problem_perm problem_input_stride problem_output_stride].
  assert (Hpos : forall i, i < 5 -> 1 <= [batch * H; W; b; b; C].[i]).
  { apply (below_5 (fun i => 1 <= [batch * H; W; b; b; C].[i]));
      read_arrays; nia. }
  apply setup_transpose_nd_quiet.
  - exact valid_rank_5.
  - apply valid_perm_checked; reflexivity.
  - exact Hpos.
  - apply stride_trace_quiet.
    + apply valid_perm_checked; reflexivity.
    + exact Hpos.
    + reflexivity.
    + reflexivity.
    + intros i H0 Hi. revert H0. revert i Hi.
      apply (below_5 (fun i => 0 < i ->
               [W * ics; ics; b * C; C; 1].[i] * [batch * H; W; b; b; C].[i]
               <= [W * ics; ics; b * C; C; 1].[i - 1] /\
               [b * W * (b * ocs); W * (b * ocs); b * ocs; ocs; 1].[i]
               * [batch * H; W; b; b; C].[[0; 2; 1; 3; 4].[i]]
               <= [b * W * (b * ocs); W * (b * ocs); b * ocs; ocs; 1].[i - 1]));
        intros H0; try lia; read_arrays; split; lia.
Qed.

Lemma depth_to_space_setup_is_quiet_witness :
  match setup_depth_to_space_nhwc 1 normalize_packed example_params
          (new_operator xnn_operator_type_depth_to_space_nhwc_x32 1 4 1 2 0)
          xnn_operator_type_depth_to_space_nhwc_x32
          1 2 2 1000 2000 4 with
  | Returned st op' tr =>
      st = xnn_status_success /\ tr = [] /\ state op' = xnn_run_state_ready
  | Unreachable => False
  end.
Proof.
  pose proof (depth_to_space_setup_is_quiet 1 normalize_packed example_params true
                1 4 1 2 0 xnn_operator_type_depth_to_space_nhwc_x32
                (new_operator xnn_operator_type_depth_to_space_nhwc_x32 1 4 1 2 0)
                [] 1 2 2 1000 2000 4 eq_refl) as H.
  cbv zeta in H.
  destruct (setup_depth_to_space_nhwc 1 normalize_packed example_params
              (new_operator xnn_operator_type_depth_to_space_nhwc_x32 1 4 1 2 0)
              xnn_operator_type_depth_to_space_nhwc_x32
              1 2 2 1000 2000 4) as [st op' tr|] eqn:E.
  - apply H; try lia; vm_compute; reflexivity.
  - vm_compute in E. discriminate E.
Defined.

(** ** Creation *)

Lemma nchw2nhwc_create_is_nhwc_create (flag : N) (params : xnn_parameters)
    (memory : bool) (C ics ocs b flags : N) :
  xnn_create_depth_to_space_nchw2nhwc_x32 flag params memory C ics ocs b flags
  = create_depth_to_space_nhwc flag params memory C ics ocs b flags
      xnn_operator_type_depth_to_space_nchw2nhwc_x32.
Proof. reflexivity. Qed.

Ltac create_case :=
  cbn;
  split; [split; [first [discriminate | intros _; intuition (lia || congruence)]
                 | first [reflexivity | intros H; exfalso; intuition (lia || congruence)]] |];
  split; [intros; first [reflexivity | exfalso; intuition (lia || congruence)] |];
  split; [intros; first [reflexivity | exfalso; intuition (lia || congruence)] |];
  split; [intros; first [reflexivity | exfalso; intuition (lia || congruence)] |];
  intros Hs; first [exfalso; apply Hs; reflexivity
                   | split; [reflexivity | eexists; reflexivity]].

Lemma create_depth_to_space_nhwc_decides (flag : N) (params : xnn_parameters)
    (memory : bool) (C ics ocs b flags : N) (ty : xnn_operator_type) :
  create_decides
    (N.land (init_flags params) flag <> 0)
    (C <> 0 /\ C <= ocs /\ 1 < b /\ C *% b *% b <= ics)
    memory (new_operator ty C ics ocs b flags)
    (create_depth_to_space_nhwc flag params memory C ics ocs b flags ty).
Proof.
  unfold create_decides, create_depth_to_space_nhwc.
  destruct (N.eqb_spec (N.land (init_flags params) flag) 0) as [Ei|Ei];
    [create_case|].
  destruct (N.eqb_spec C 0) as [E0|E0]; [create_case|].
  destruct (N.ltb_spec ocs C) as [E1|E1]; [create_case|].
  destruct (N.leb_spec b 1) as [E2|E2]; [create_case|].
  destruct (N.ltb_spec ics (C *% b *% b)) as [E3|E3]; [create_case|].
  destruct memory; create_case.
Qed.

Lemma create_space_to_depth_nhwc_decides (flag : N) (params : xnn_parameters)
    (memory : bool) (C ics ocs b flags : N) (ty : xnn_operator_type) :
  create_decides
    (N.land (init_flags params) flag <> 0)
    (C <> 0 /\ C <= ics /\ 1 < b /\ C *% b *% b <= ocs)
    memory (new_operator ty C ics ocs b flags)
    (create_space_to_depth_nhwc flag params memory C ics ocs b flags ty).
Proof.
  unfold create_decides, create_space_to_depth_nhwc.
  destruct (N.eqb_spec (N.land (init_flags params) flag) 0) as [Ei|Ei];
    [create_case|].
  destruct (N.eqb_spec C 0) as [E0|E0]; [create_case|].
  destruct (N.ltb_spec ics C) as [E1|E1]; [create_case|].
  destruct (N.leb_spec b 1) as [E2|E2]; [create_case|].
  destruct (N.ltb_spec ocs (C *% b *% b)) as [E3|E3]; [create_case|].
  destruct memory; create_case.
Qed.

(** X9: the three create functions of the derived operators validate
    before they allocate.  Each succeeds exactly when the library is
    initialised, the channel count is not zero, the stride on the side of
    the channel count is at least that count, the block size is above 1, the
    other stride is at least [channels * block_size * block_size] as
    computed in [size_t], and memory is found; it then hands back an
    operator with these parameters and the state invalid.  Otherwise the
    status is uninitialized, invalid parameter or out of memory, in that
    order of precedence, no operator is handed back, and
    [xnn_delete_operator] is only ever called on the null pointer. *)
Theorem derived_create_decides (flag : N) (params : xnn_parameters)
    (memory : bool) (C ics ocs b flags : N) (ty : xnn_operator_type) :
  create_decides
    (N.land (init_flags params) flag <> 0)
    (C <> 0 /\ C <= ocs /\ 1 < b /\ C *% b *% b <= ics)
    memory (new_operator ty C ics ocs b flags)
    (create_depth_to_space_nhwc flag params memory C ics ocs b flags ty) /\
  create_decides
    (N.land (init_flags params) flag <> 0)
    (C <> 0 /\ C <= ocs /\ 1 < b /\ C *% b *% b <= ics)
    memory
    (new_operator xnn_operator_type_depth_to_space_nchw2nhwc_x32 C ics ocs b flags)
    (xnn_create_depth_to_space_nchw2nhwc_x32 flag params memory C ics ocs b flags) /\
  create_decides
    (N.land (init_flags params) flag <> 0)
    (C <> 0 /\ C <= ics /\ 1 < b /\ C *% b *% b <= ocs)
    memory (new_operator ty C ics ocs b flags)
    (create_space_to_depth_nhwc flag params memory C ics ocs b flags ty) /\
  state (new_operator ty C ics ocs b flags) = xnn_run_state_invalid.
Proof.
  split; [apply create_depth_to_space_nhwc_decides|].
  split; [rewrite nchw2nhwc_create_is_nhwc_create;
          apply create_depth_to_space_nhwc_decides|].
  split; [apply create_space_to_depth_nhwc_decides | reflexivity].
Qed.

(** X10: [create_transpose_nd] allocates before it checks the data type and
    gives the allocation back when the check fails.  With the library not
    initialised it returns uninitialized and calls nothing but the logger;
    without memory it returns out of memory; with memory but without the
    flags of the data type it returns unsupported hardware, hands back no
    operator and passes the fresh descriptor to [xnn_delete_operator];
    otherwise it succeeds with a cleared descriptor that carries the flags
    and the operator type, in the state invalid. *)
Theorem create_transpose_nd_decides (flag : N) (params : xnn_parameters)
    (memory : bool) (fl datatype : N) (ty : xnn_operator_type) :
  let result := create_transpose_nd flag params memory fl datatype ty in
  let made := with_flags_and_type fl ty zero_operator in
  (result = (xnn_status_success, Some made, []) <->
   N.land (init_flags params) flag <> 0 /\ memory = true /\
   N.land (init_flags params) datatype = datatype) /\
  (N.land (init_flags params) flag = 0 ->
   result = (xnn_status_uninitialized, None,
             [from_setup (xnn_log_error log_not_initialized)])) /\
  (N.land (init_flags params) flag <> 0 -> memory = false ->
   result = (xnn_status_out_of_memory, None,
             [from_setup (xnn_log_error log_out_of_memory);
              from_setup (xnn_delete_operator None)])) /\
  (N.land (init_flags params) flag <> 0 -> memory = true ->
   N.land (init_flags params) datatype <> datatype ->
   result = (xnn_status_unsupported_hardware, None,
             [xnn_log_error_datatype ty;
              from_setup (xnn_delete_operator (Some zero_operator))])) /\
  state made = xnn_run_state_invalid /\ type made = ty /\ flags made = fl.
Proof.
  intros result made. subst result made.
  unfold create_transpose_nd, init_transpose_nd.
  destruct (N.eqb_spec (N.land (init_flags params) flag) 0) as [Ei|Ei].
  { split; [split; [discriminate | intros [H _]; contradiction]|].
    split; [reflexivity|]. split; [intros H; contradiction|].
    split; [intros H; contradiction|]. repeat split. }
  destruct memory; cbn [negb].
  - destruct (N.eqb_spec (N.land (init_flags params) datatype) datatype) as [Ed|Ed];
      cbn [negb].
    + split; [split; [intros _; repeat split; assumption | reflexivity]|].
      split; [intros H; contradiction|]. split; [discriminate|].
      split; [intros _ _ H; contradiction|]. repeat split.
    + split; [split; [discriminate | intros [_ [_ H]]; contradiction]|].
      split; [intros H; contradiction|]. split; [discriminate|].
      split; [reflexivity|]. repeat split.
  - split; [split; [discriminate | intros [_ [H _]]; discriminate]|].
    split; [intros H; contradiction|]. split; [reflexivity|].
    split; [discriminate|]. repeat split.
Qed.

(** ** Running in one call *)

(** X11: [run_transpose_nd] reaches [xnn_run_operator] only after a setup
    that succeeded.  The operator it runs is in the state ready or skip and
    carries the requested type and flags, and the status returned is the one
    of [xnn_run_operator]; this happens only with the library initialised,
    the data type supported and a valid rank and permutation.  When
    [xnn_run_operator] is not reached the status is uninitialized,
    unsupported hardware or invalid parameter. *)
Theorem run_transpose_nd_runs_after_setup (flag : N) (normalize : normalizer)
    (params : xnn_parameters) (run_operator : xnn_operator -> xnn_status)
    (fl input output num_dims : N) (shape perm : list N)
    (element_size datatype : N) (ty : xnn_operator_type) :
  match run_transpose_nd flag normalize params run_operator fl input output
          num_dims shape perm element_size datatype ty with
  | Ran st tr (Some op) =>
      st = run_operator op /\
      (state op = xnn_run_state_ready \/ state op = xnn_run_state_skip) /\
      type op = ty /\ flags op = fl /\
      valid_rank num_dims /\ valid_perm num_dims perm /\
      N.land (init_flags params) flag <> 0 /\
      N.land (init_flags params) datatype = datatype
  | Ran st tr None =>
      st = xnn_status_uninitialized \/ st = xnn_status_unsupported_hardware \/
      st = xnn_status_invalid_parameter
  | Run_unreachable => valid_rank num_dims /\ valid_perm num_dims perm
  end.
Proof.
  unfold run_transpose_nd, init_transpose_nd.
  destruct (N.eqb_spec (N.land (init_flags params) flag) 0) as [Ei|Ei];
    [left; reflexivity|].
  destruct (N.eqb_spec (N.land (init_flags params) datatype) datatype) as [Ed|Ed];
    cbn [negb]; [|right; left; reflexivity].
  pose proof (setup_transpose_nd_outcome normalize params
                (with_flags_and_type fl ty zero_operator) input output num_dims
                shape perm None None element_size) as Hs.
  destruct (setup_transpose_nd normalize params
              (with_flags_and_type fl ty zero_operator) input output num_dims
              shape perm None None element_size) as [st op' tr|].
  - destruct Hs as [[[-> [Hst [Hr [Hp _]]]] | [-> _]] [Ht [Hf _]]].
    + split; [reflexivity|]. split; [exact Hst|]. split; [exact Ht|].
      split; [exact Hf|]. split; [exact Hr|]. split; [exact Hp|].
      split; assumption.
    + right. right. reflexivity.
  - destruct Hs as [Hr [Hp _]]. split; assumption.
Qed.

(** X12: with an invalid rank or permutation, [run_transpose_nd] passes its
    own local operator, which lives on the stack, to [xnn_delete_operator]:
    the error path of [setup_transpose_nd] is taken on the operator that
    [run_transpose_nd] cleared and initialised, and the status is
    [xnn_status_invalid_parameter] without [xnn_run_operator] being
    reached. *)
Theorem run_transpose_nd_deletes_local_operator (flag : N) (normalize : normalizer)
    (params : xnn_parameters) (run_operator : xnn_operator -> xnn_status)
    (fl input output num_dims : N) (shape perm : list N)
    (element_size datatype : N) (ty : xnn_operator_type) :
  N.land (init_flags params) flag <> 0 ->
  N.land (init_flags params) datatype = datatype ->
  ~ (valid_rank num_dims /\ valid_perm num_dims perm) ->
  let local :=
    with_state xnn_run_state_invalid (with_flags_and_type fl ty zero_operator) in
  exists m,
    run_transpose_nd flag normalize params run_operator fl input output
      num_dims shape perm element_size datatype ty
    = Ran xnn_status_invalid_parameter
        [from_setup (xnn_log_error m);
         from_setup (xnn_delete_operator (Some local))]
        None.
Proof.
  intros Hi Hd Hbad local. subst local.
  unfold run_transpose_nd, init_transpose_nd.
  destruct (N.eqb_spec (N.land (init_flags params) flag) 0) as [E|_];
    [contradiction|].
  destruct (N.eqb_spec (N.land (init_flags params) datatype) datatype) as [_|E];
    [|contradiction].
  cbn [negb].
  destruct (setup_transpose_nd_invalid normalize params
              (with_flags_and_type fl ty zero_operator) input output num_dims
              shape perm None None element_size Hbad) as [m ->].
  exists m. reflexivity.
Qed.

Lemma run_transpose_nd_deletes_local_operator_witness :
  exists m,
    run_transpose_nd 1 normalize_packed example_params
      (fun _ => xnn_status_success) 0 1000 2000 2 [2; 3] [0; 0] 4 0
      xnn_operator_type_transpose_nd_x32
    = Ran xnn_status_invalid_parameter
        [from_setup (xnn_log_error m);
         from_setup
           (xnn_delete_operator
              (Some (with_state xnn_run_state_invalid
                       (with_flags_and_type 0 xnn_operator_type_transpose_nd_x32
                          zero_operator))))]
        None.
Proof.
  apply (run_transpose_nd_deletes_local_operator 1 normalize_packed example_params
           (fun _ => xnn_status_success) 0 1000 2000 2 [2; 3] [0; 0] 4 0
           xnn_operator_type_transpose_nd_x32).
  - vm_compute. discriminate.
  - reflexivity.
  - intros [_ [_ Hd]]. apply (Hd 0 1); [lia | lia | reflexivity].
Defined.

(** ** [reorder_array] and the aim of the loop order *)

Lemma map_get_iota_all (l : list N) (n : N) :
  n = N.of_nat (length l) -> map (get l) (iota 0 n) = l.
Proof.
  intros Hn. apply (nth_ext _ _ 0 0).
  - rewrite length_map, length_iota. lia.
  - intros j Hj. rewrite length_map, length_iota in Hj.
    pose proof (get_map_iota (get l) n (N.of_nat j) ltac:(lia)) as H.
    unfold get in H. rewrite Nat2N.id in H. exact H.
Qed.

(** X13: [reorder_array] with a loop order that is a permutation of
    [0 .. num_dims - 1] rearranges the first [num_dims] entries of the
    array and loses none: the result is a permutation of the array, entry
    [k] is the old entry [loop_order[k]], and the entries from [num_dims] on
    stay where they are.  With the identity order the array is
    unchanged. *)
Theorem reorder_array_permutes (n : N) (lo a : list N) :
  n <= N.of_nat (length a) ->
  is_permutation n lo ->
  Permutation (reorder_array n lo a) a /\
  length (reorder_array n lo a) = length a /\
  (forall k, k < n -> (reorder_array n lo a).[k] = a.[lo.[k]]) /\
  skipn (N.to_nat n) (reorder_array n lo a) = skipn (N.to_nat n) a /\
  ((forall k, k < n -> lo.[k] = k) -> reorder_array n lo a = a).
Proof.
  intros Hlen Hperm.
  assert (Htmp : map (get (firstn (N.to_nat n) a)) (iota 0 n) = firstn (N.to_nat n) a).
  { apply map_get_iota_all. rewrite length_firstn. lia. }
  assert (HP : Permutation (reorder_array n lo a) a).
  { unfold reorder_array.
    apply perm_trans with (firstn (N.to_nat n) a ++ skipn (N.to_nat n) a);
      [|rewrite firstn_skipn; apply Permutation_refl].
    apply Permutation_app_tail.
    apply perm_trans with (map (get (firstn (N.to_nat n) a)) (iota 0 n));
      [|rewrite Htmp; apply Permutation_refl].
    rewrite <- (map_map (get lo) (get (firstn (N.to_nat n) a))).
    apply Permutation_map. exact Hperm. }
  split; [exact HP|]. split; [apply Permutation_length; exact HP|].
  split.
  { intros k Hk. apply get_reorder_array; [exact Hk|].
    apply (is_permutation_valid_perm _ _ Hperm). exact Hk. }
  split; [apply skipn_reorder_array|].
  intros Hid. unfold reorder_array.
  transitivity (firstn (N.to_nat n) a ++ skipn (N.to_nat n) a);
    [|apply firstn_skipn].
  f_equal. transitivity (map (get (firstn (N.to_nat n) a)) (iota 0 n));
    [|exact Htmp].
  apply map_ext_in. intros k Hk.
  apply In_iota in Hk. rewrite Hid by lia. reflexivity.
Qed.

Lemma reorder_array_permutes_witness :
  Permutation (reorder_array 3 [2; 0; 1] [10; 20; 30; 40]) [10; 20; 30; 40] /\
  length (reorder_array 3 [2; 0; 1] [10; 20; 30; 40]) = length [10; 20; 30; 40] /\
  (forall k, k < 3 ->
     (reorder_array 3 [2; 0; 1] [10; 20; 30; 40]).[k]
     = [10; 20; 30; 40].[[2; 0; 1].[k]]) /\
  skipn (N.to_nat 3) (reorder_array 3 [2; 0; 1] [10; 20; 30; 40])
  = skipn (N.to_nat 3) [10; 20; 30; 40] /\
  ((forall k, k < 3 -> [2; 0; 1].[k] = k) ->
   reorder_array 3 [2; 0; 1] [10; 20; 30; 40] = [10; 20; 30; 40]).
Proof.
  apply (reorder_array_permutes 3 [2; 0; 1] [10; 20; 30; 40]).
  - cbn. lia.
  - apply is_permutation_checked; reflexivity.
Defined.

Lemma loop_order_scan_outcome (positions : list N) (n : N) (lo os : list N) :
  (loop_order_scan positions n lo os = (lo, os) /\
   forall i, In i positions -> lo.[i] <> n - 1) \/
  exists i, In i positions /\ lo.[i] = n - 1 /\
    loop_order_scan positions n lo os
    = (put (put lo i lo.[n - 2]) (n - 2) lo.[i],
       put (put os i os.[n - 2]) (n - 2) os.[i]).
Proof.
  induction positions as [|i rest IH].
  - left. split; [reflexivity | intros i []].
  - cbn [loop_order_scan].
    destruct (N.eqb_spec lo.[i] (n - 1)) as [E|E].
    + right. exists i. split; [left; reflexivity|]. split; [exact E | reflexivity].
    + destruct IH as [[IH Hmiss] | [j [Hj [Ej IH]]]].
      * left. split; [exact IH|]. intros j [<- | Hj]; [exact E | apply Hmiss; exact Hj].
      * right. exists j. split; [right; exact Hj|]. split; [exact Ej | exact IH].
Qed.

(** X14: the loop order reaches its aim.  For a normalized rank above 1
    and a normalized permutation that is a permutation of
    [0 .. n - 1], the loop order computed by [setup_transpose_nd] is again a
    permutation of [0 .. n - 1], and the last index [n - 1] sits in one of
    its last two positions. *)
Theorem loop_order_places_last_index (n : N) (perm os : list N) :
  1 < n -> is_permutation n perm -> n <= N.of_nat (length os) ->
  let lo := fst (order_loops n perm os) in
  is_permutation n lo /\ (lo.[n - 2] = n - 1 \/ lo.[n - 1] = n - 1).
Proof.
  intros Hn Hperm Hlen lo. split.
  - destruct (order_loops_exchange n perm os Hlen) as [s [Hs [Hinv Hread]]].
    unfold is_permutation.
    assert (Heq : map (get lo) (iota 0 n) = map (get perm) (map s (iota 0 n))).
    { rewrite map_map. apply map_ext_in. intros k Hk. apply In_iota in Hk.
      apply (Hread k). lia. }
    rewrite Heq.
    apply perm_trans with (map (get perm) (iota 0 n)); [|exact Hperm].
    apply Permutation_map. apply involution_permutes; assumption.
  - subst lo. unfold order_loops.
    set (start := map (get perm) (iota 0 n)).
    assert (Hstart : forall k, k < n -> start.[k] = perm.[k])
      by (intros k Hk; apply get_map_iota; exact Hk).
    assert (Hls : length start = N.to_nat n)
      by (unfold start; rewrite length_map, length_iota; lia).
    destruct (N.ltb_spec 1 n) as [_|]; [|lia].
    destruct (loop_order_scan_outcome (iota 0 (n - 2)) n start os)
      as [[-> Hmiss] | [i [Hi [Ei ->]]]]; cbn [fst].
    + assert (Hin : In (n - 1) (map (get perm) (iota 0 n))).
      { eapply Permutation_in; [symmetry; exact Hperm|]. apply In_iota. lia. }
      apply in_map_iff in Hin. destruct Hin as [p [Ep Hp]]. apply In_iota in Hp.
      destruct (N.lt_ge_cases p (n - 2)) as [Hlt|Hge].
      * exfalso. apply (Hmiss p); [apply In_iota; lia|].
        rewrite Hstart by lia. exact Ep.
      * assert (E : p = n - 2 \/ p = n - 1) by lia.
        destruct E as [-> | ->]; [left | right]; rewrite Hstart by lia; exact Ep.
    + apply In_iota in Hi. left.
      destruct (exchange_reads start i (n - 2)) as [_ [B _]]; [lia | lia|].
      rewrite B. exact Ei.
Qed.

Lemma loop_order_places_last_index_witness :
  is_permutation 4 (fst (order_loops 4 [3; 0; 1; 2] [6; 2; 1; 24])) /\
  ((fst (order_loops 4 [3; 0; 1; 2] [6; 2; 1; 24])).[4 - 2] = 4 - 1 \/
   (fst (order_loops 4 [3; 0; 1; 2] [6; 2; 1; 24])).[4 - 1] = 4 - 1).
Proof.
  apply (loop_order_places_last_index 4 [3; 0; 1; 2] [6; 2; 1; 24]).
  - lia.
  - apply is_permutation_checked; reflexivity.
  - cbn. lia.
Defined.

Lemma below_6 (P : N -> Prop) :
  P 0 -> P 1 -> P 2 -> P 3 -> P 4 -> P 5 -> forall i, i < 6 -> P i.
Proof.
  intros H0 H1 H2 H3 H4 H5 i Hi.
  assert (E : i = 0 \/ i = 1 \/ i = 2 \/ i = 3 \/ i = 4 \/ i = 5) by lia.
  destruct E as [-> | [-> | [-> | [-> | [-> | ->]]]]]; assumption.
Qed.

(** The NCHW-to-NHWC depth-to-space problem when no product wraps
    around. *)
Lemma depth_to_space_nchw2nhwc_problem_exact (ty : xnn_operator_type)
    (C ics ocs b flags batch H W : N) :
  0 < batch -> 0 < H -> 0 < W -> 1 < b -> 0 < C -> C <= ocs ->
  C * b * b <= ics ->
  batch * ics * (H * W) < 2 ^ SIZE_BITS ->
  batch * (b * H) * (b * W) * ocs < 2 ^ SIZE_BITS ->
  depth_to_space_nchw2nhwc_problem (new_operator ty C ics ocs b flags) batch H W
  = {| problem_shape := [batch; b; b; C; H; W];
       problem_perm := [0; 4; 1; 5; 2; 3];
       problem_input_stride :=
         [ics * (H * W); b * (H * W * C); H * W * C; H * W; W; 1];
       problem_output_stride :=
         [H * b * W * b * ocs; b * W * b * ocs; W * b * ocs; b * ocs; ocs; 1] |}.
Proof.
  intros Hn HH HW Hb HC Hocs Hics B1 B2.
  unfold depth_to_space_nchw2nhwc_problem. cbn [new_operator block_size channels
    input_pixel_stride output_pixel_stride].
  remember (2 ^ SIZE_BITS) as M eqn:HM.
  assert (F0 : 1 <= ocs) by lia.
  assert (F1 : ics * (H * W) <= batch * ics * (H * W)).
  { rewrite <- N.mul_assoc. rewrite <- (N.mul_1_l (ics * (H * W))) at 1.
    apply N.mul_le_mono_r. lia. }
  assert (Fbb : 1 <= b * b) by nia.
  assert (Fc : C <= ics).
  { pose proof (mul_ge_l C (b * b) Fbb) as Hm.
    replace (C * (b * b)) with (C * b * b) in Hm by ring. lia. }
  assert (Fcb : C * b <= ics).
  { pose proof (mul_ge_l (C * b) b ltac:(lia)). lia. }
  assert (F2 : H * W * C <= ics * (H * W)).
  { rewrite (N.mul_comm ics). apply N.mul_le_mono_l. exact Fc. }
  assert (F3 : H * W <= H * W * C) by (apply mul_ge_l; lia).
  assert (F4 : b * (H * W * C) <= ics * (H * W)).
  { replace (b * (H * W * C)) with (C * b * (H * W)) by ring.
    apply N.mul_le_mono_r. exact Fcb. }
  assert (G0 : H * b * W * b * ocs <= batch * (b * H) * (b * W) * ocs).
  { replace (batch * (b * H) * (b * W) * ocs) with (batch * (H * b * W * b * ocs))
      by ring.
    rewrite <- (N.mul_1_l (H * b * W * b * ocs)) at 1.
    apply N.mul_le_mono_r. lia. }
  assert (G1 : H * b * W * b <= H * b * W * b * ocs) by (apply mul_ge_l; exact F0).
  assert (G2 : H * b * W <= H * b * W * b) by (apply mul_ge_l; lia).
  assert (G3 : H * b <= H * b * W) by (apply mul_ge_l; lia).
  assert (G4 : b * W * b * ocs <= H * b * W * b * ocs).
  { replace (H * b * W * b * ocs) with (H * (b * W * b * ocs)) by ring.
    rewrite <- (N.mul_1_l (b * W * b * ocs)) at 1.
    apply N.mul_le_mono_r. lia. }
  assert (G5 : b * W * b <= b * W * b * ocs) by (apply mul_ge_l; exact F0).
  assert (G6 : b * W <= b * W * b) by (apply mul_ge_l; lia).
  assert (G7 : W * b * ocs <= b * W * b * ocs).
  { replace (b * W * b * ocs) with (b * (W * b * ocs)) by ring.
    rewrite <- (N.mul_1_l (W * b * ocs)) at 1.
    apply N.mul_le_mono_r. lia. }
  assert (G8 : W * b <= W * b * ocs) by (apply mul_ge_l; exact F0).
  assert (G9 : b * ocs <= W * b * ocs).
  { replace (W * b * ocs) with (W * (b * ocs)) by ring.
    rewrite <- (N.mul_1_l (b * ocs)) at 1.
    apply N.mul_le_mono_r. lia. }
  rewrite (size_mul_small H W) by (rewrite <- HM; lia).
  rewrite (size_mul_small (H * W) C) by (rewrite <- HM; lia).
  rewrite (size_mul_small ics (H * W)) by (rewrite <- HM; lia).
  rewrite (size_mul_small b (H * W * C)) by (rewrite <- HM; lia).
  rewrite (size_mul_small H b) by (rewrite <- HM; lia).
  rewrite (size_mul_small (H * b) W) by (rewrite <- HM; lia).
  rewrite (size_mul_small (H * b * W) b) by (rewrite <- HM; lia).
  rewrite (size_mul_small (H * b * W * b) ocs) by (rewrite <- HM; lia).
  rewrite (size_mul_small b W) by (rewrite <- HM; lia).
  rewrite (size_mul_small (b * W) b) by (rewrite <- HM; lia).
  rewrite (size_mul_small (b * W * b) ocs) by (rewrite <- HM; lia).
  rewrite (size_mul_small W b) by (rewrite <- HM; lia).
  rewrite (size_mul_small (W * b) ocs) by (rewrite <- HM; lia).
  rewrite (size_mul_small b ocs) by (rewrite <- HM; lia).
  reflexivity.
Qed.

(** X15: an operator made by [xnn_create_depth_to_space_nchw2nhwc_x32]
    passes the stride checks of setup without a message.  For a non-empty
    input whose input and output tensors fit the address space,
    [xnn_setup_depth_to_space_nchw2nhwc_x32] builds a problem of rank 6, logs
    nothing and returns success with the state ready. *)
Theorem depth_to_space_nchw2nhwc_setup_is_quiet (flag : N) (normalize : normalizer)
    (params : xnn_parameters) (memory : bool) (C ics ocs b flags : N)
    (op : xnn_operator) (tr0 : list effect) (batch H W input output : N) :
  xnn_create_depth_to_space_nchw2nhwc_x32 flag params memory C ics ocs b flags
  = (xnn_status_success, Some op, tr0) ->
  0 < batch -> 0 < H -> 0 < W ->
  batch * ics * (H * W) < 2 ^ SIZE_BITS ->
  batch * (b * H) * (b * W) * ocs < 2 ^ SIZE_BITS ->
  let p := depth_to_space_nchw2nhwc_problem op batch H W in
  match xnn_setup_depth_to_space_nchw2nhwc_x32 flag normalize params op
          batch H W input output with
  | Returned st op' tr =>
      st = xnn_status_success /\ tr = [] /\ state op' = xnn_run_state_ready
  | Unreachable =>
      ~ valid_rank (normalized_dims
                      (normalize 6 4 (problem_perm p) (problem_shape p)
                         (Some (problem_input_stride p))
                         (Some (problem_output_stride p))))
  end.
Proof.
  intros Hc Hn HH HW B1 B2 p.
  rewrite nchw2nhwc_create_is_nhwc_create in Hc.
  apply create_depth_to_space_nhwc_success in Hc.
  destruct Hc as [-> [Hinit [HC0 [Hocs [Hb Hics]]]]].
  rewrite (block_channels_exact C ocs b batch H W) in Hics by assumption.
  assert (HC : 0 < C) by lia.
  unfold xnn_setup_depth_to_space_nchw2nhwc_x32.
  rewrite (setup_derived_builds flag normalize params
             (new_operator xnn_operator_type_depth_to_space_nchw2nhwc_x32
                C ics ocs b flags)) by (assumption || lia).
  subst p.
  rewrite (depth_to_space_nchw2nhwc_problem_exact
             xnn_operator_type_depth_to_space_nchw2nhwc_x32
             C ics ocs b flags batch H W) by assumption.
  cbn [problem_shape problem_perm problem_input_stride problem_output_stride].
  assert (Hpos : forall i, i < 6 -> 1 <= [batch; b; b; C; H; W].[i]).
  { apply (below_6 (fun i => 1 <= [batch; b; b; C; H; W].[i]));
      read_arrays; lia. }
  apply setup_transpose_nd_quiet.
  - exact valid_rank_6.
  - apply valid_perm_checked; reflexivity.
  - exact Hpos.
  - apply stride_trace_quiet.
    + apply valid_perm_checked; reflexivity.
    + exact Hpos.
    + reflexivity.
    + reflexivity.
    + intros i H0 Hi. revert H0. revert i Hi.
      apply (below_6 (fun i => 0 < i ->
               [ics * (H * W); b * (H * W * C); H * W * C; H * W; W; 1].[i]
               * [batch; b; b; C; H; W].[i]
               <= [ics * (H * W); b * (H * W * C); H * W * C; H * W; W; 1].[i - 1] /\
               [H * b * W * b * ocs; b * W * b * ocs; W * b * ocs; b * ocs; ocs; 1].[i]
               * [batch; b; b; C; H; W].[[0; 4; 1; 5; 2; 3].[i]]
               <= [H * b * W * b * ocs; b * W * b * ocs; W * b * ocs; b * ocs;
                   ocs; 1].[i - 1]));
        intros H0; try lia; read_arrays; split; try lia.
      replace (b * (H * W * C) * b) with (C * b * b * (H * W)) by ring.
      apply N.mul_le_mono_r. exact Hics.
Qed.

Lemma depth_to_space_nchw2nhwc_setup_is_quiet_witness :
  match xnn_setup_depth_to_space_nchw2nhwc_x32 1 normalize_packed example_params
          (new_operator xnn_operator_type_depth_to_space_nchw2nhwc_x32 1 4 1 2 0)
          1 2 2 1000 2000 with
  | Returned st op' tr =>
      st = xnn_status_success /\ tr = [] /\ state op' = xnn_run_state_ready
  | Unreachable => False
  end.
Proof.
  pose proof (depth_to_space_nchw2nhwc_setup_is_quiet 1 normalize_packed
                example_params true 1 4 1 2 0
                (new_operator xnn_operator_type_depth_to_space_nchw2nhwc_x32
                   1 4 1 2 0)
                [] 1 2 2 1000 2000 eq_refl) as H.
  cbv zeta in H.
  destruct (xnn_setup_depth_to_space_nchw2nhwc_x32 1 normalize_packed
              example_params
              (new_operator xnn_operator_type_depth_to_space_nchw2nhwc_x32
                 1 4 1 2 0)
              1 2 2 1000 2000) as [st op' tr|] eqn:E.
  - apply H; try lia; vm_compute; reflexivity.
  - vm_compute in E. discriminate E.
Defined.
